(** * drive_sync.py: the one-way Drive synchronisation daemon

    A shallow embedding of [drive_sync.py] and the properties of its
    path resolver, reconciler, scanner and daemon loop.

    - Python strings are [string]; the [posixpath] helpers the daemon calls
      ([join], [dirname], [relpath]) and [str.strip]/[str.split] are
      written out on them.
    - The Drive service is a world: the list of remote objects in
      store-defined order, a plan of which of the coming calls fail with
      [HttpError], the trace of the calls made so far and what was printed.
      The daemon pastes ids and names between the quotes of its queries as
      they are: a query is the one the daemon means when the pasted values
      hold no quote and no backslash; what the service lists for any other
      text is left to the world.
    - Python code that calls the service is a state-and-exception monad
      over the world; an exception keeps the world as it was when raised.
    - [uploaded_set] is a [gset string]. *)

From Stdlib Require Import Ascii String ZArith DecimalString.
From stdpp Require Import base strings list gmap.

Local Open Scope string_scope.
Local Open Scope list_scope.

(** ** Strings and POSIX paths *)

Module Path.

Definition sep : ascii := "/"%char.

Definition is_sep (c : ascii) : bool := Ascii.eqb c sep.

Definition is_empty (s : string) : bool :=
  match s with EmptyString => true | String _ _ => false end.

(** [s.split("/")] *)
Fixpoint split (s : string) : list string :=
  match s with
  | EmptyString => [EmptyString]
  | String c s' =>
      if is_sep c then EmptyString :: split s'
      else match split s' with
           | h :: t => String c h :: t
           | [] => [String c EmptyString]
           end
  end.

(** [s.lstrip("/")], [s.rstrip("/")] and [s.strip("/")] *)
Fixpoint lstrip (s : string) : string :=
  match s with
  | EmptyString => EmptyString
  | String c s' => if is_sep c then lstrip s' else s
  end.

Fixpoint rstrip (s : string) : string :=
  match s with
  | EmptyString => EmptyString
  | String c s' =>
      let r := rstrip s' in
      if is_sep c && is_empty r then EmptyString else String c r
  end.

Definition strip (s : string) : string := rstrip (lstrip s).

Definition startswith_sep (s : string) : bool :=
  match s with String c _ => is_sep c | EmptyString => false end.

Fixpoint endswith_sep (s : string) : bool :=
  match s with
  | EmptyString => false
  | String c EmptyString => is_sep c
  | String _ s' => endswith_sep s'
  end.

Fixpoint has_sep (s : string) : bool :=
  match s with
  | EmptyString => false
  | String c s' => is_sep c || has_sep s'
  end.

(** [posixpath.join(a, b)] *)
Definition join (a b : string) : string :=
  if startswith_sep b then b
  else if is_empty a || endswith_sep a then a +:+ b
  else a +:+ "/" +:+ b.

(** [p[:p.rfind("/") + 1]] *)
Fixpoint head_part (p : string) : string :=
  match p with
  | EmptyString => EmptyString
  | String c p' =>
      if has_sep p' then String c (head_part p')
      else if is_sep c then String c EmptyString
      else EmptyString
  end.

(** [posixpath.dirname(p)]: the head is right-stripped unless it is empty
    or made of separators only, and then the stripped head is not empty. *)
Definition dirname (p : string) : string :=
  let head := head_part p in
  if is_empty (rstrip head) then head else rstrip head.

(** The components [abspath] leaves of an absolute path, as the list
    [[x for x in abspath(p).split("/") if x]] of [relpath]: [normpath]
    drops the empty and the [.] components and lets [..] remove the
    component before it (or nothing at the root). [acc] is reversed. *)
Fixpoint norm_comps (acc : list string) (comps : list string) : list string :=
  match comps with
  | [] => rev acc
  | c :: cs =>
      if is_empty c || String.eqb c "." then norm_comps acc cs
      else if String.eqb c ".." then norm_comps (tail acc) cs
      else norm_comps (c :: acc) cs
  end.

Definition abs_comps (p : string) : list string := norm_comps [] (split p).

(** [len(commonprefix([l1, l2]))] *)
Fixpoint common_len (l1 l2 : list string) : nat :=
  match l1, l2 with
  | a :: l1', b :: l2' => if String.eqb a b then S (common_len l1' l2') else 0
  | _, _ => 0
  end.

(** [posixpath.join] applied to the elements of a non-empty [l] *)
Definition join_all (l : list string) : string :=
  match l with
  | [] => EmptyString
  | a :: l' => fold_left join l' a
  end.

(** [posixpath.relpath(path, start)] for absolute [path] and [start]
    (the working directory is then never consulted). *)
Definition relpath (path start : string) : string :=
  let start_list := abs_comps start in
  let path_list := abs_comps path in
  let i := common_len start_list path_list in
  let rel_list := (repeat ".." (length start_list - i) ++ drop i path_list)%list in
  match rel_list with
  | [] => "."
  | _ => join_all rel_list
  end.

End Path.


(** ** The Drive service, seen from the daemon *)

(** A remote object. [rmtime] and [rmedia] stand for [modifiedTime] and the
    content (the local path whose bytes were uploaded last). *)
Record robj := {
  rid : string;
  rname : string;
  rparents : list string;
  rfolder : bool;
  rtrashed : bool;
  rmtime : nat;
  rmedia : string
}.

(** The requests the daemon sends. *)
Inductive call :=
  | ListFolders (parent name : string)
  | ListFiles (parent name : string)
  | CreateFolder (parent name : string)
  | CreateFile (parent name media : string)
  | UpdateFile (file_id media : string).

(** What the daemon prints. *)
Inductive line :=
  | Starting
  | Stopped
  | LogUpdate (name : string)
  | LogUpload (name : string)
  | LogError (local : string).

Inductive exn := HttpError | OSError | KeyboardInterrupt.

Inductive result (A : Type) :=
  | Ok (a : A)
  | Raise (e : exn).
Arguments Ok {A} a.
Arguments Raise {A} e.

(** The state the daemon runs in: the remote [store] in store-defined
    order, the plan [faults] (the head says whether the next request fails
    with [HttpError]; an empty plan means no failure), the trace [calls] of
    the requests sent, the printed output [out], the set object that
    [main] creates and [scan_and_sync] mutates in place, and [odd_reply]:
    what the service lists, from a store, for a query text into which a
    value with a quote or a backslash was pasted. *)
Record world := {
  store : list robj;
  faults : list bool;
  calls : list call;
  out : list line;
  uploaded_set : gset string;
  odd_reply : string -> list robj -> list robj
}.

Definition M (A : Type) : Type := world -> result A * world.

Definition ret {A} (a : A) : M A := fun w => (Ok a, w).

Definition bind {A B} (m : M A) (k : A -> M B) : M B :=
  fun w =>
    match m w with
    | (Ok a, w') => k a w'
    | (Raise e, w') => (Raise e, w')
    end.

Definition raise {A} (e : exn) : M A := fun w => (Raise e, w).

(** [try: m except e: handler] *)
Definition try_except {A} (m : M A) (e : exn) (handler : M A) : M A :=
  fun w =>
    match m w with
    | (Ok a, w') => (Ok a, w')
    | (Raise e', w') =>
        match e, e' with
        | HttpError, HttpError
        | OSError, OSError
        | KeyboardInterrupt, KeyboardInterrupt => handler w'
        | _, _ => (Raise e', w')
        end
    end.

Notation "x <- c ;; k" := (bind c (fun x => k))
  (at level 100, c at next level, right associativity).
Notation "c ;; k" := (bind c (fun _ => k))
  (at level 100, right associativity).

Definition print (l : line) : M unit :=
  fun w => (Ok tt, {| store := store w; faults := faults w; calls := calls w;
                      out := out w ++ [l]; uploaded_set := uploaded_set w;
     odd_reply := odd_reply w |}).

(** Sending a request: it is traced, consumes one entry of the plan and
    fails if that entry says so. *)
Definition next_fails (w : world) : bool :=
  match faults w with
  | true :: _ => true
  | _ => false
  end.

Definition after_request (c : call) (w : world) : world :=
  {| store := store w; faults := tail (faults w); calls := calls w ++ [c];
     out := out w; uploaded_set := uploaded_set w;
     odd_reply := odd_reply w |}.

Definition request (c : call) : M unit :=
  fun w =>
    if next_fails w then (Raise HttpError, after_request c w)
    else (Ok tt, after_request c w).

Definition get_store : M (list robj) := fun w => (Ok (store w), w).

Definition set_store (s : list robj) : M unit :=
  fun w => (Ok tt, {| store := s; faults := faults w; calls := calls w;
                      out := out w; uploaded_set := uploaded_set w;
     odd_reply := odd_reply w |}).

(** The id the service gives to the next object it creates. *)
Definition new_id (s : list robj) : string :=
  String "i" (String "d" (String.concat "" (repeat "_" (length s)))).

Definition in_parents (parent : string) (o : robj) : bool :=
  existsb (String.eqb parent) (rparents o).

(** ['{parent_id}' in parents and name = '{folder_name}' and
     mimeType = 'application/vnd.google-apps.folder' and trashed = false],
    as the service reads it when both values are plain (see [plain]). *)
Definition folder_query (parent_id folder_name : string) (o : robj) : bool :=
  in_parents parent_id o && String.eqb (rname o) folder_name
  && rfolder o && negb (rtrashed o).

(** ['{drive_parent_id}' in parents and name = '{filename}' and
     trashed = false], for plain values. *)
Definition file_query (drive_parent_id filename : string) (o : robj) : bool :=
  in_parents drive_parent_id o && String.eqb (rname o) filename
  && negb (rtrashed o).

(** The two query texts of the daemon, by the values pasted into them. *)
Inductive query :=
  | FolderQuery (parent_id folder_name : string)
  | FileQuery (drive_parent_id filename : string).

(** The f-strings of [find_child_folder] and [find_drive_file]: the values
    go between the quotes unescaped. *)
Definition query_text (q : query) : string :=
  match q with
  | FolderQuery parent_id folder_name =>
      "'" +:+ parent_id +:+ "' in parents and name = '" +:+ folder_name
      +:+ "' and mimeType = 'application/vnd.google-apps.folder' and trashed = false"
  | FileQuery drive_parent_id filename =>
      "'" +:+ drive_parent_id +:+ "' in parents and name = '" +:+ filename
      +:+ "' and trashed = false"
  end.

(** A quote ends a quoted value of a query and a backslash escapes the
    character after it; a value without either is [plain] and stands in
    the query for itself. *)
Definition is_quote (c : ascii) : bool :=
  Ascii.eqb c "'"%char || Ascii.eqb c "\"%char.

Fixpoint plain (s : string) : bool :=
  match s with
  | EmptyString => true
  | String c s' => negb (is_quote c) && plain s'
  end.

Definition query_plain (q : query) : bool :=
  match q with
  | FolderQuery a b | FileQuery a b => plain a && plain b
  end.

(** What the text of a query with plain values asks of an object. *)
Definition query_meant (q : query) : robj -> bool :=
  match q with
  | FolderQuery parent_id folder_name => folder_query parent_id folder_name
  | FileQuery drive_parent_id filename => file_query drive_parent_id filename
  end.

(** The files the service lists for a query it answers: the objects that
    the query asks for, in the order of the store, when the pasted values
    are plain; otherwise the text is another query and the reply is the
    world's. A text the service refuses is a failing request, which is the
    plan's to say. *)
Definition service_list (q : query) (w : world) : list robj :=
  if query_plain q then List.filter (query_meant q) (store w)
  else odd_reply w (query_text q) (store w).

Definition list_reply (q : query) : M (list robj) :=
  fun w => (Ok (service_list q w), w).

(** [service.files().list(q=q, ...).execute().get("files", [])] *)
Definition files_list (c : call) (q : query) : M (list robj) :=
  request c ;;
  list_reply q.

(** [service.files().create(body=..., fields="id").execute()["id"]]: the
    new object goes to the end of the store. *)
Definition files_create (c : call) (name parent : string) (folder : bool)
    (media : string) : M string :=
  request c ;;
  s <- get_store ;;
  let o := {| rid := new_id s; rname := name; rparents := [parent];
              rfolder := folder; rtrashed := false;
              rmtime := length s; rmedia := media |} in
  set_store (s ++ [o]) ;;
  ret (rid o).

Definition set_media (file_id media : string) (now : nat) (o : robj) : robj :=
  if String.eqb (rid o) file_id
  then {| rid := rid o; rname := rname o; rparents := rparents o;
          rfolder := rfolder o; rtrashed := rtrashed o;
          rmtime := now; rmedia := media |}
  else o.

(** [service.files().update(fileId=..., media_body=media).execute()] *)
Definition files_update (file_id media : string) : M unit :=
  request (UpdateFile file_id media) ;;
  s <- get_store ;;
  set_store (map (set_media file_id media (length s)) s).

(** ** drive_sync.py *)

Definition DRIVE_FOLDER_ID : string := "18hufMLDrwAxgDhNk4z4CZi6yVWOEx6gI".
Definition MOUNT_DIR : string := "/tmp/myfs_mount".

Definition find_child_folder (parent_id folder_name : string) : M (option string) :=
  files <- files_list (ListFolders parent_id folder_name)
                      (FolderQuery parent_id folder_name) ;;
  ret (match files with
       | f :: _ => Some (rid f)
       | [] => None
       end).

Definition create_folder (parent_id folder_name : string) : M string :=
  files_create (CreateFolder parent_id folder_name) folder_name parent_id true "".

(** The loop of [ensure_drive_path]; [found if found else ...] takes the
    other branch for [None] and for the empty string. *)
Fixpoint walk_parts (parts : list string) (parent : string) : M string :=
  match parts with
  | [] => ret parent
  | p :: parts' =>
      found <- find_child_folder parent p ;;
      parent' <- match found with
                 | Some i => if Path.is_empty i then create_folder parent p else ret i
                 | None => create_folder parent p
                 end ;;
      walk_parts parts' parent'
  end.

Definition ensure_drive_path (rel_dir : string) : M string :=
  if String.eqb rel_dir "" || String.eqb rel_dir "." then ret DRIVE_FOLDER_ID
  else walk_parts (Path.split (Path.strip rel_dir)) DRIVE_FOLDER_ID.

Definition find_drive_file (drive_parent_id filename : string) : M (option robj) :=
  files <- files_list (ListFiles drive_parent_id filename)
                      (FileQuery drive_parent_id filename) ;;
  ret (match files with
       | f :: _ => Some f
       | [] => None
       end).

(** The local file system as the daemon reads it during one cycle: the
    tree under [/] that [os.path.exists] and [os.walk] see, and the paths
    that cannot be opened as a file when their upload starts (gone since
    the scan, unreadable, or not a regular file). *)
#[local] Set Warnings "-register-all".
Inductive node :=
  | File (name : string)
  | Dir (name : string) (children : list node).

Record localfs := {
  root_entries : list node;
  vanished : list string
}.

Definition node_name (n : node) : string :=
  match n with File name | Dir name _ => name end.

Fixpoint resolve (n : node) (comps : list string) : option node :=
  match comps with
  | [] => Some n
  | c :: cs =>
      match n with
      | File _ => None
      | Dir _ children =>
          match List.find (fun m => String.eqb (node_name m) c) children with
          | Some m => resolve m cs
          | None => None
          end
      end
  end.

Definition lookup_path (fs : localfs) (p : string) : option node :=
  resolve (Dir "" (root_entries fs)) (Path.abs_comps p).

(** [os.path.exists(p)] *)
Definition path_exists (fs : localfs) (p : string) : bool :=
  match lookup_path fs p with Some _ => true | None => false end.

Fixpoint file_names (entries : list node) : list string :=
  match entries with
  | [] => []
  | File name :: rest => name :: file_names rest
  | Dir _ _ :: rest => file_names rest
  end.

(** [os.walk(top)], top-down: the directory itself, then each of its
    sub-directories in turn; nothing when [top] is not a directory. The
    list of sub-directory names is left out, the daemon ignores it. *)
Fixpoint walk_node (top : string) (n : node) : list (string * list string) :=
  match n with
  | File _ => []
  | Dir _ children =>
      (top, file_names children) ::
      List.flat_map (fun c => walk_node (Path.join top (node_name c)) c) children
  end.

Definition os_walk (fs : localfs) (top : string) : list (string * list string) :=
  match lookup_path fs top with
  | Some n => walk_node top n
  | None => []
  end.

(** [MediaFileUpload(local, resumable=True)] opens the file. *)
Definition media_file_upload (fs : localfs) (local : string) : M string :=
  if bool_decide (local ∈ vanished fs) then raise OSError else ret local.

Definition upload_or_update (fs : localfs) (local parent name : string) : M unit :=
  try_except
    (media <- media_file_upload fs local ;;
     existing <- find_drive_file parent name ;;
     match existing with
     | Some e =>
         files_update (rid e) media ;;
         print (LogUpdate name)
     | None =>
         files_create (CreateFile parent name media) name parent false media ;;
         print (LogUpload name)
     end)
    HttpError
    (print (LogError local)).

Definition in_uploaded_set (rel_path : string) : M bool :=
  fun w => (Ok (bool_decide (rel_path ∈ uploaded_set w)), w).

Definition add_uploaded (rel_path : string) : M unit :=
  fun w => (Ok tt, {| store := store w; faults := faults w; calls := calls w;
                      out := out w;
                      uploaded_set := {[ rel_path ]} ∪ uploaded_set w;
                      odd_reply := odd_reply w |}).

Definition new_uploaded_set : M unit :=
  fun w => (Ok tt, {| store := store w; faults := faults w; calls := calls w;
                      out := out w; uploaded_set := ∅;
                      odd_reply := odd_reply w |}).

Fixpoint for_each {A} (l : list A) (body : A -> M unit) : M unit :=
  match l with
  | [] => ret tt
  | a :: l' => body a ;; for_each l' body
  end.

(** The body of the inner loop of [scan_and_sync] for one file [fname] of
    the directory [root] (the reconcile step of one candidate). *)
Definition reconcile (fs : localfs) (root fname : string) : M unit :=
  let local_path := Path.join root fname in
  let rel_path := Path.relpath local_path MOUNT_DIR in
  seen <- in_uploaded_set rel_path ;;
  if seen then ret tt
  else
    let rel_dir := Path.dirname rel_path in
    drive_parent <- ensure_drive_path rel_dir ;;
    upload_or_update fs local_path drive_parent fname ;;
    add_uploaded rel_path.

Definition scan_and_sync (fs : localfs) : M unit :=
  let notes_dir := Path.join MOUNT_DIR "notes" in
  if negb (path_exists fs notes_dir) then ret tt
  else
    for_each (os_walk fs notes_dir)
      (fun '(root, files) =>
         for_each files (fun fname => reconcile fs root fname)).

(** [while True: scan_and_sync(...); time.sleep(...)]. The environment
    gives the file system of each cycle; when the list is used up the stop
    signal arrives during the sleep. *)
Fixpoint daemon_loop (cycles : list localfs) : M unit :=
  match cycles with
  | [] => raise KeyboardInterrupt
  | fs :: rest => scan_and_sync fs ;; daemon_loop rest
  end.

(** [main]; obtaining the credentials ([build_drive_service]) is outside
    this model. *)
Definition main (cycles : list localfs) : M unit :=
  print Starting ;;
  new_uploaded_set ;;
  try_except (daemon_loop cycles) KeyboardInterrupt (print Stopped).

(** ** Running the daemon on small inputs *)

Definition mount (entries : list node) : list node :=
  [Dir "tmp" [Dir "myfs_mount" entries]].

Definition fs_notes : localfs :=
  {| root_entries :=
       mount [Dir "notes" [File "report.txt"; Dir "sub" [File "data.txt"]]];
     vanished := [] |}.

Definition world0 : world :=
  {| store := []; faults := []; calls := []; out := []; uploaded_set := ∅;
     odd_reply := fun _ _ => [] |}.

Definition folder (i n p : string) (t : nat) : robj :=
  {| rid := i; rname := n; rparents := [p]; rfolder := true;
     rtrashed := false; rmtime := t; rmedia := "" |}.

Definition file (i n p : string) (t : nat) (m : string) : robj :=
  {| rid := i; rname := n; rparents := [p]; rfolder := false;
     rtrashed := false; rmtime := t; rmedia := m |}.

(** The world after a successful [files().create]. *)
Definition after_create (c : call) (name parent : string) (folder : bool)
    (media : string) (w : world) : world :=
  {| store := store w ++ [{| rid := new_id (store w); rname := name;
                             rparents := [parent]; rfolder := folder;
                             rtrashed := false; rmtime := length (store w);
                             rmedia := media |}];
     faults := tail (faults w); calls := calls w ++ [c]; out := out w;
     uploaded_set := uploaded_set w;
     odd_reply := odd_reply w |}.

(** The world after a successful [files().update]. *)
Definition after_update (file_id media : string) (w : world) : world :=
  {| store := map (set_media file_id media (length (store w))) (store w);
     faults := tail (faults w); calls := calls w ++ [UpdateFile file_id media];
     out := out w; uploaded_set := uploaded_set w;
     odd_reply := odd_reply w |}.

(** Remote objects that agree on what a lookup by parent and name can see
    (identity, name, parents, trashed flag) and may differ in modification
    time and content. *)
Definition same_key (o1 o2 : robj) : Prop :=
  rid o1 = rid o2 /\ rname o1 = rname o2 /\ rparents o1 = rparents o2
  /\ rtrashed o1 = rtrashed o2.

(** A remote root with two live folders named [notes]. *)
Definition world_dup : world :=
  {| store := [folder "x1" "notes" DRIVE_FOLDER_ID 0;
               folder "x2" "notes" DRIVE_FOLDER_ID 1];
     faults := []; calls := []; out := []; uploaded_set := ∅;
     odd_reply := fun _ _ => [] |}.

(** A remote [notes] folder that holds [report.txt]. *)
Definition world_report : world :=
  {| store := [folder "n1" "notes" DRIVE_FOLDER_ID 0;
               file "r1" "report.txt" "n1" 1 "/tmp/myfs_mount/notes/report.txt"];
     faults := []; calls := []; out := []; uploaded_set := ∅;
     odd_reply := fun _ _ => [] |}.

(** A file name with quotes in it; the text of the lookup it is pasted
    into, and what that text asks of an object: to be under the parent,
    named [x] and named [y], and not trashed. *)
Definition quoted_name : string := "x' and name = 'y".

Definition two_names_text : string :=
  "'n1' in parents and name = 'x' and name = 'y' and trashed = false".

Definition two_names_query (o : robj) : bool :=
  in_parents "n1" o && String.eqb (rname o) "x" && String.eqb (rname o) "y"
  && negb (rtrashed o).

(** A local [notes] directory with a file of that name, and a remote
    [notes] folder that holds a file of that name already. *)
Definition fs_quoted : localfs :=
  {| root_entries := mount [Dir "notes" [File quoted_name]]; vanished := [] |}.

Definition world_quoted : world :=
  {| store := [folder "n1" "notes" DRIVE_FOLDER_ID 0;
               file "q1" quoted_name "n1" 1 "/tmp/myfs_mount/notes/x' and name = 'y"];
     faults := []; calls := []; out := []; uploaded_set := ∅;
     odd_reply := fun text s =>
       if String.eqb text two_names_text then List.filter two_names_query s
       else [] |}.


(** A mount directory without [notes]. *)
Definition fs_empty : localfs :=
  {| root_entries := mount []; vanished := [] |}.

(** The world after a [print]. *)
Definition after_print (l : line) (w : world) : world :=
  {| store := store w; faults := faults w; calls := calls w;
     out := out w ++ [l]; uploaded_set := uploaded_set w;
     odd_reply := odd_reply w |}.

(** Whether a request uploads the local file [l], and how many requests of
    a trace do. *)
Definition is_upload (l : string) (c : call) : bool :=
  match c with
  | CreateFile _ _ media | UpdateFile _ media => String.eqb media l
  | _ => false
  end.

Definition uploads_of (l : string) (cs : list call) : nat :=
  length (List.filter (is_upload l) cs).

(** A relation between the world before and after holds for every run of
    a computation, however it ends. *)
Definition preserves {A} (P : world -> world -> Prop) (m : M A) : Prop :=
  forall w, P w (snd (m w)).

(** The set of processed paths only grows. *)
Definition grows (w w' : world) : Prop := uploaded_set w ⊆ uploaded_set w'.

(** The set of processed paths and the number of uploads of every file are
    as before. *)
Definition quiet (w w' : world) : Prop :=
  uploaded_set w' = uploaded_set w
  /\ forall l, uploads_of l (calls w') = uploads_of l (calls w).

(** The relative path under which [scan_and_sync] records a local path. *)
Definition rel_of (local_path : string) : string :=
  Path.relpath local_path MOUNT_DIR.

(** Since the session started with [base l] uploads of [l] in the trace,
    every local path was uploaded at most once, and a path that was is in
    the set of processed paths. *)
Definition once_inv (base : string -> nat) (w : world) : Prop :=
  forall l,
    uploads_of l (calls w) <= base l + 1
    /\ (base l < uploads_of l (calls w) -> rel_of l ∈ uploaded_set w).

Definition keeps_once (base : string -> nat) (w w' : world) : Prop :=
  once_inv base w -> once_inv base w'.

(** A remote root that has the [notes] folder, and a plan in which the
    second request fails. *)
Definition world_fail : world :=
  {| store := [folder "n1" "notes" DRIVE_FOLDER_ID 0];
     faults := [false; true]; calls := []; out := []; uploaded_set := ∅;
     odd_reply := fun _ _ => [] |}.

(** The tree of [fs_notes] in which [report.txt] can no longer be opened. *)
Definition fs_vanished : localfs :=
  {| root_entries := root_entries fs_notes;
     vanished := ["/tmp/myfs_mount/notes/report.txt"] |}.


(** ** Resolving folders *)

(** The segments [ensure_drive_path] walks: none for the root. *)
Definition segments (rel_dir : string) : list string :=
  if String.eqb rel_dir "" || String.eqb rel_dir "." then []
  else Path.split (Path.strip rel_dir).

Definition is_lookup (c : call) : bool :=
  match c with ListFolders _ _ => true | _ => false end.

Definition is_create_folder (c : call) : bool :=
  match c with CreateFolder _ _ => true | _ => false end.

(** The ids the service hands out are not empty and plain (letters, digits,
    [-] and [_]). *)
Definition ids_plain (s : list robj) : Prop :=
  Forall (fun o => Path.is_empty (rid o) = false /\ plain (rid o) = true) s.

(** The world after more requests, all of them answered without a change
    of the store. *)
Definition with_calls (cs : list call) (w : world) : world :=
  {| store := store w; faults := faults w; calls := calls w ++ cs;
     out := out w; uploaded_set := uploaded_set w;
     odd_reply := odd_reply w |}.

Definition first_folder (s : list robj) (parent name : string) : option robj :=
  head (List.filter (folder_query parent name) s).

Definition new_folder (s : list robj) (parent name : string) : robj :=
  {| rid := new_id s; rname := name; rparents := [parent]; rfolder := true;
     rtrashed := false; rmtime := length s; rmedia := "" |}.


(** ** What the scanner yields *)

(** The name of a directory entry: not empty, without separator, and
    neither [.] nor [..]. *)
Definition valid_name (n : string) : bool :=
  negb (Path.is_empty n) && negb (Path.has_sep n)
  && negb (String.eqb n ".") && negb (String.eqb n "..").

Fixpoint valid_node (n : node) : bool :=
  valid_name (node_name n)
  && match n with
     | File _ => true
     | Dir _ children => forallb valid_node children
     end.

(** The entries below [MOUNT_DIR/notes] have valid names. *)
Definition valid_notes (fs : localfs) : Prop :=
  forall name children,
    lookup_path fs (Path.join MOUNT_DIR "notes") = Some (Dir name children) ->
    forallb valid_node children = true.

(** The files [scan_and_sync] visits in a cycle, as the directory and the
    file name its loops are at. *)
Definition candidates (fs : localfs) : list (string * string) :=
  List.flat_map (fun '(root, files) => map (pair root) files)
    (os_walk fs (Path.join MOUNT_DIR "notes")).

(** [top/d1/.../dk] *)
Definition cat_path (top : string) (names : list string) : string :=
  fold_left (fun acc d => acc +:+ "/" +:+ d) names top.

(** A path that [posixpath.join] extends with a separator. *)
Definition extendable (a : string) : Prop :=
  Path.is_empty a = false /\ Path.endswith_sep a = false.

(** ** Further relations between the worlds of a run *)

(** A remote object is kept: identity, name, parents, kind and trashed flag
    are as before. *)
Definition kept (o1 o2 : robj) : Prop :=
  rid o1 = rid o2 /\ rname o1 = rname o2 /\ rparents o1 = rparents o2
  /\ rfolder o1 = rfolder o2 /\ rtrashed o1 = rtrashed o2.

(** The remote store has lost nothing: its objects are kept, in their
    order, and new ones come after them. *)
Definition store_kept (w w' : world) : Prop :=
  exists s1 added, store w' = s1 ++ added /\ Forall2 kept (store w) s1.

(** What a session does between two resolutions: it resolves directories,
    uploads files, records paths and runs whole cycles, however each of
    them ends. *)
Inductive session_step : world -> world -> Prop :=
  | step_resolve rel_dir w :
      session_step w (snd (ensure_drive_path rel_dir w))
  | step_upload fs local parent name w :
      session_step w (snd (upload_or_update fs local parent name w))
  | step_record rel_path w :
      session_step w (snd (add_uploaded rel_path w))
  | step_cycle fs w :
      session_step w (snd (scan_and_sync fs w)).

(** Nothing was printed. *)
Definition silent (w w' : world) : Prop := out w' = out w.

(** A computation that, started without failures planned, returns normally
    and leaves no failure planned. *)
Definition runs_clean {A} (m : M A) : Prop :=
  forall w, faults w = [] -> exists a w', m w = (Ok a, w') /\ faults w' = [].

(** Whether the request [c] may follow the request [prev]: a creation needs
    the lookup of the same parent and name just before it, an update the
    lookup of a file. *)
Definition may_follow (prev : option call) (c : call) : bool :=
  match c, prev with
  | CreateFolder p n, Some (ListFolders p' n') => String.eqb p p' && String.eqb n n'
  | CreateFile p n _, Some (ListFiles p' n') => String.eqb p p' && String.eqb n n'
  | UpdateFile _ _, Some (ListFiles _ _) => true
  | ListFolders _ _, _ | ListFiles _ _, _ => true
  | _, _ => false
  end.

Fixpoint disciplined (prev : option call) (cs : list call) : bool :=
  match cs with
  | [] => true
  | c :: cs' => may_follow prev c && disciplined (Some c) cs'
  end.

(** The requests sent since [w] are disciplined. *)
Definition looks_before (w w' : world) : Prop :=
  exists cs, calls w' = calls w ++ cs /\ disciplined None cs = true.

(** Every path in the set of processed paths was there before or is
    allowed. *)
Definition only_adds (allowed : string -> Prop) (w w' : world) : Prop :=
  forall p, p ∈ uploaded_set w' -> p ∈ uploaded_set w \/ allowed p.

(** The relative paths of the files a list of cycles visits. *)
Definition scanned (cycles : list localfs) (p : string) : Prop :=
  exists fs root fname,
    In fs cycles /\ In (root, fname) (candidates fs)
    /\ p = rel_of (Path.join root fname).

(** A computation that raises nothing but [e0]. *)
Definition raises_only {A} (e0 : exn) (m : M A) : Prop :=
  forall w e w', m w = (Raise e, w') -> e = e0.

(** * cli.py: the launcher

    The commands of [cli.py] that start and stop the file system process and
    the sync daemon, over a model of the operating system: the regular
    files with their text, the live processes, what a signal to a process
    group does, which directories cannot be made, whether the log reads as
    text, and what running the unmount tools gives. *)

Module Cli.

Inductive cexn :=
  | ProcessLookupError
  | PermissionError
  | FileNotFoundError
  | FileExistsError
  | NotADirectoryError
  | IsADirectoryError
  | UnicodeDecodeError
  | OverflowError
  | BlockingIOError
  | CalledProcessError
  | ValueError
  | TypeError
  | SystemExit (code : Z).

Inductive cres (A : Type) :=
  | Done (a : A)
  | Fail (e : cexn).
Arguments Done {A} a.
Arguments Fail {A} e.

Inductive signal := SIG0 | SIGTERM | SIGKILL.

(** How running an unmount tool ends. *)
Inductive tool_result := ExitZero | ExitNonZero | NotInstalled.

(** What the commands print, by message. *)
Inductive cline :=
  | ErrMyfsMissing
  | ErrSyncMissing
  | MountedAt (mountpoint : string) (pid : Z)
  | SyncStarted (pid : Z)
  | NotRunning (name : string)
  | StoppedProcess (name : string) (pid : Z)
  | FailedToStop (name : string) (e : cexn)
  | AlreadyMounted
  | AllSystemsGo
  | Unmounted (mountpoint : string)
  | FusermountFailed (e : cexn)
  | Removed (name : string)
  | FailedToRemove (name : string) (e : cexn)
  | NoTokenFiles
  | StatusReport
  | StatusMyfs (running : option Z)
  | StatusSync (running : option Z)
  | RecentLog
  | LogLine (line : string)
  | NoSyncLog.

(** How [kill] ends. *)
Inductive kill_result := Signalled | NoSuchProcess | NotPermitted.

(** The pids of the system: positive, and [pid_t] is a C [int]. *)
Definition PID_MAX : Z := 2147483647.

Definition pid_fits (pid : Z) : bool :=
  ((- PID_MAX - 1 <=? pid) && (pid <=? PID_MAX))%Z.

Definition valid_pid (pid : Z) : bool :=
  ((0 <? pid) && (pid <=? PID_MAX))%Z.

(** The operating system as the launcher meets it: [files] are the regular
    files and their text; unlinking a file in [locked] is refused;
    [proc_table] holds the live processes under their pids, with whether
    the launcher may signal them; the processes in [stubborn] survive
    [SIGTERM];
    [fusermount3] and [fusermount] say how running the tool ends.
    [group_signal pid sig] says what [kill] does for a [pid] that is zero
    or negative (the signal goes to a process group or to every process):
    how it ends and the live processes it leaves. [mkdir_error] says which
    directories cannot be made, and why, apart from what [files] tells.
    [log_error] says whether reading the sync log as text fails (its bytes
    do not decode, or a directory is in its place). *)
Record os := {
  files : gmap string string;
  locked : gset string;
  proc_table : gmap Z bool;
  stubborn : gset Z;
  fusermount3 : tool_result;
  fusermount : tool_result;
  printed : list cline;
  group_signal : Z -> signal -> gmap Z bool -> kill_result * gmap Z bool;
  mkdir_error : string -> option cexn;
  log_error : option cexn
}.

(** The live processes: the entries of the table under a pid. *)
Definition procs (s : os) : gmap Z bool :=
  filter (fun e => valid_pid e.1 = true) (proc_table s).

Definition C (A : Type) : Type := os -> cres A * os.

Definition cret {A} (a : A) : C A := fun s => (Done a, s).

Definition cbind {A B} (m : C A) (k : A -> C B) : C B :=
  fun s =>
    match m s with
    | (Done a, s') => k a s'
    | (Fail e, s') => (Fail e, s')
    end.

Definition craise {A} (e : cexn) : C A := fun s => (Fail e, s).

(** [except Exception] does not catch [SystemExit]. *)
Definition is_exception (e : cexn) : bool :=
  match e with SystemExit _ => false | _ => true end.

(** [try: m except Exception as e: handler(e)] *)
Definition try_exception {A} (m : C A) (handler : cexn -> C A) : C A :=
  fun s =>
    match m s with
    | (Fail e, s') => if is_exception e then handler e s' else (Fail e, s')
    | r => r
    end.

(** [try: m finally: cleanup], for a [cleanup] that raises nothing. *)
Definition try_finally {A} (m : C A) (cleanup : C unit) : C A :=
  fun s =>
    match m s with
    | (r, s') => (r, snd (cleanup s'))
    end.

Declare Scope cli_scope.
Notation "x <- c ;; k" := (cbind c (fun x => k))
  (at level 100, c at next level, right associativity) : cli_scope.
Notation "c ;; k" := (cbind c (fun _ => k))
  (at level 100, right associativity) : cli_scope.
Local Open Scope cli_scope.

Definition set_files (f : gmap string string) (s : os) : os :=
  {| files := f; locked := locked s; proc_table := proc_table s;
     stubborn := stubborn s;
     fusermount3 := fusermount3 s; fusermount := fusermount s;
     printed := printed s; group_signal := group_signal s;
     mkdir_error := mkdir_error s; log_error := log_error s |}.

Definition set_procs (p : gmap Z bool) (s : os) : os :=
  {| files := files s; locked := locked s; proc_table := p;
     stubborn := stubborn s;
     fusermount3 := fusermount3 s; fusermount := fusermount s;
     printed := printed s; group_signal := group_signal s;
     mkdir_error := mkdir_error s; log_error := log_error s |}.

Definition set_printed (l : list cline) (s : os) : os :=
  {| files := files s; locked := locked s; proc_table := proc_table s;
     stubborn := stubborn s; fusermount3 := fusermount3 s;
     fusermount := fusermount s; printed := l;
     group_signal := group_signal s; mkdir_error := mkdir_error s;
     log_error := log_error s |}.

(** [print_brand(msg)] *)
Definition print_brand (l : cline) : C unit :=
  fun s => (Done tt, set_printed (printed s ++ [l]) s).

(** [path.exists()] for the paths the launcher asks about, regular files. *)
Definition path_exists (path : string) : C bool :=
  fun s => (Done (bool_decide (is_Some (files s !! path))), s).

(** [path.read_text()] of a regular file that reads as text. Its caller
    [read_pid] turns every failure into [None]: a pid file that does not
    read as text is, for the launcher, one whose text is no number. The
    log is read by [read_log]. *)
Definition read_text (path : string) : C string :=
  fun s =>
    match files s !! path with
    | Some text => (Done text, s)
    | None => (Fail FileNotFoundError, s)
    end.

(** [path.write_text(text)] *)
Definition write_text (path text : string) : C unit :=
  fun s => (Done tt, set_files (<[path := text]> (files s)) s).

(** [path.unlink()] *)
Definition unlink (path : string) : C unit :=
  fun s =>
    match files s !! path with
    | None => (Fail FileNotFoundError, s)
    | Some _ =>
        if bool_decide (path ∈ locked s) then (Fail PermissionError, s)
        else (Done tt, set_files (delete path (files s)) s)
    end.

(** [os.kill(pid, sig)]. A number that does not fit [pid_t] raises
    [OverflowError]; zero or a negative number sends the signal to a
    process group or to every process; a positive number is the pid of a
    live process or of none. Signal 0 only probes. *)
Definition os_kill (pid : Z) (sig : signal) : C unit :=
  fun s =>
    if negb (pid_fits pid) then (Fail OverflowError, s)
    else if (pid <=? 0)%Z then
      match group_signal s pid sig (procs s) with
      | (Signalled, p) =>
          (Done tt, match sig with SIG0 => s | _ => set_procs p s end)
      | (NoSuchProcess, _) => (Fail ProcessLookupError, s)
      | (NotPermitted, _) => (Fail PermissionError, s)
      end
    else
      match procs s !! pid with
      | None => (Fail ProcessLookupError, s)
      | Some false => (Fail PermissionError, s)
      | Some true =>
          match sig with
          | SIG0 => (Done tt, s)
          | SIGTERM =>
              if bool_decide (pid ∈ stubborn s) then (Done tt, s)
              else (Done tt, set_procs (delete pid (procs s)) s)
          | SIGKILL => (Done tt, set_procs (delete pid (procs s)) s)
          end
      end.

(** The pid the system gives to the next process: positive and not in
    use. *)
Definition fresh_pid (p : gmap Z bool) : Z :=
  (1 + foldr Z.max 0 (elements (dom p)))%Z.

(** [subprocess.Popen(...).pid]; no process starts when the system has no
    pid left. *)
Definition popen : C Z :=
  fun s =>
    let pid := fresh_pid (procs s) in
    if valid_pid pid then (Done pid, set_procs (<[pid := true]> (procs s)) s)
    else (Fail BlockingIOError, s).

(** [subprocess.run(..., check=True)] of an unmount tool. *)
Definition run_tool (outcome : os -> tool_result) : C unit :=
  fun s =>
    match outcome s with
    | ExitZero => (Done tt, s)
    | ExitNonZero => (Fail CalledProcessError, s)
    | NotInstalled => (Fail FileNotFoundError, s)
    end.

(** [str(Path(p))] for a POSIX path: a root of one separator (or of two,
    when [p] starts with exactly two), then the components of [p] that are
    neither empty nor [.], joined by separators; [.] when nothing is
    left. *)
Definition path_root (p : string) : string :=
  match p with
  | String c1 (String c2 (String c3 _)) =>
      if Path.is_sep c1
      then if Path.is_sep c2 && negb (Path.is_sep c3) then "//" else "/"
      else ""
  | String c1 (String c2 EmptyString) =>
      if Path.is_sep c1 then if Path.is_sep c2 then "//" else "/" else ""
  | String c1 EmptyString => if Path.is_sep c1 then "/" else ""
  | EmptyString => ""
  end.

Definition path_parts (p : string) : list string :=
  List.filter (fun c => negb (Path.is_empty c || String.eqb c "."))
    (Path.split p).

Definition path_render (root : string) (parts : list string) : string :=
  let text := root +:+ String.concat "/" parts in
  if Path.is_empty text then "." else text.

Definition path_str (p : string) : string :=
  path_render (path_root p) (path_parts p).

(** The directories above a path, nearest to the root first. *)
Definition path_ancestors (p : string) : list string :=
  map (fun k => path_render (path_root p) (take k (path_parts p)))
    (seq 1 (length (path_parts p) - 1)).

Definition PROJECT_ROOT : string := "/mnt/d/Projects/FUSEfs".
Definition MYFS_BIN : string := "/mnt/d/Projects/FUSEfs/myfs".
Definition DRIVE_SYNC : string := "/mnt/d/Projects/FUSEfs/drive_sync.py".
Definition PID_MYFS : string := "/mnt/d/Projects/FUSEfs/.fusefs_myfs.pid".
Definition PID_SYNC : string := "/mnt/d/Projects/FUSEfs/.fusefs_sync.pid".
Definition DEFAULT_MOUNT : string := "/tmp/myfs_mount".
Definition SYNC_LOG : string := "/mnt/d/Projects/FUSEfs/drive_sync.log".

(** [SYNC_LOG.read_text()]: the log may not read as text. *)
Definition read_log : C string :=
  fun s =>
    match log_error s with
    | Some e => (Fail e, s)
    | None => read_text SYNC_LOG s
    end.

(** [str(pid)] *)
Definition str_of_int (pid : Z) : string :=
  NilZero.string_of_int (Z.to_int pid).

Definition write_pid (path : string) (pid : Z) : C unit :=
  write_text path (str_of_int pid).

Section Commands.

(** [int(text.strip())], [None] when it raises. *)
Variable int_of_text : string -> option Z.

Definition read_pid (path : string) : C (option Z) :=
  there <- path_exists path ;;
  if negb there then cret None
  else
    try_exception
      (text <- read_text path ;;
       match int_of_text text with
       | Some pid => cret (Some pid)
       | None => craise ValueError
       end)
      (fun _ => cret None).

Definition is_process_running (pid : Z) : C bool :=
  fun s =>
    match os_kill pid SIG0 s with
    | (Fail ProcessLookupError, s') => (Done false, s')
    | (Fail PermissionError, s') => (Done true, s')
    | (Fail e, s') => (Fail e, s')
    | (Done _, s') => (Done true, s')
    end.

(** [not pid], for [pid] a number or [None] *)
Definition falsy (pid : option Z) : bool :=
  match pid with
  | None => true
  | Some n => Z.eqb n 0
  end%Z.

Definition stop_process (pidfile name : string) : C unit :=
  pid <- read_pid pidfile ;;
  match pid with
  | Some n =>
      if Z.eqb n 0%Z then print_brand (NotRunning name)
      else
        try_finally
          (try_exception
             (os_kill n SIGTERM ;;
              running <- is_process_running n ;;
              (if running then os_kill n SIGKILL else cret tt) ;;
              print_brand (StoppedProcess name n))
             (fun e => print_brand (FailedToStop name e)))
          (try_exception (unlink pidfile) (fun _ => cret tt))
  | None => print_brand (NotRunning name)
  end.

(** [mountpoint.mkdir(parents=True, exist_ok=True)]: refused when the path
    is a regular file, when a directory above it is one, or when the
    system says so; the directories themselves are not part of the
    model. *)
Definition mkdir_result (s : os) (path : string) : option cexn :=
  match files s !! path with
  | Some _ => Some FileExistsError
  | None =>
      if existsb (fun a => bool_decide (is_Some (files s !! a))) (path_ancestors path)
      then Some NotADirectoryError
      else mkdir_error s path
  end.

Definition mkdir (path : string) : C unit :=
  fun s =>
    match mkdir_result s path with
    | Some e => (Fail e, s)
    | None => (Done tt, s)
    end.

Definition start_myfs (mountpoint : string) : C Z :=
  there <- path_exists MYFS_BIN ;;
  (if negb there then print_brand ErrMyfsMissing ;; craise (SystemExit 1%Z)
   else cret tt) ;;
  mkdir mountpoint ;;
  pid <- popen ;;
  write_pid PID_MYFS pid ;;
  print_brand (MountedAt mountpoint pid) ;;
  cret pid.

(** [open(SYNC_LOG, 'a')] creates the log when it is not there; a
    directory in its place cannot be opened. *)
Definition open_append (path : string) : C unit :=
  fun s =>
    match log_error s with
    | Some IsADirectoryError => (Fail IsADirectoryError, s)
    | _ =>
        match files s !! path with
        | Some _ => (Done tt, s)
        | None => (Done tt, set_files (<[path := ""]> (files s)) s)
        end
    end.

Definition start_sync : C Z :=
  there <- path_exists DRIVE_SYNC ;;
  (if negb there then print_brand ErrSyncMissing ;; craise (SystemExit 1%Z)
   else cret tt) ;;
  open_append SYNC_LOG ;;
  pid <- popen ;;
  write_pid PID_SYNC pid ;;
  print_brand (SyncStarted pid) ;;
  cret pid.

(** [Path(args.path) if args.path else DEFAULT_MOUNT], as the text
    [str(mountpoint)] *)
Definition mountpoint_of (path : option string) : string :=
  match path with
  | Some p => if Path.is_empty p then DEFAULT_MOUNT else path_str p
  | None => DEFAULT_MOUNT
  end.

Definition mount (path : option string) : C unit :=
  let mountpoint := mountpoint_of path in
  pid <- read_pid PID_MYFS ;;
  running <- (if falsy pid then cret false
              else
                pid' <- read_pid PID_MYFS ;;
                match pid' with
                | Some n => is_process_running n
                | None => craise TypeError
                end) ;;
  if running then print_brand AlreadyMounted
  else
    start_myfs mountpoint ;;
    start_sync ;;
    print_brand AllSystemsGo.

Definition unmount (path : option string) : C unit :=
  stop_process PID_SYNC "drive_sync" ;;
  let mountpoint := mountpoint_of path in
  (fun s =>
     match (run_tool fusermount3 ;; print_brand (Unmounted mountpoint)) s with
     | (Fail CalledProcessError, s') =>
         try_exception
           (run_tool fusermount ;; print_brand (Unmounted mountpoint))
           (fun e => print_brand (FusermountFailed e)) s'
     | r => r
     end) ;;
  stop_process PID_MYFS "myfs".

End Commands.

(** [logout]: the loop over the two token files. *)
Definition logout_one (path name : string) (removed : bool) : C bool :=
  there <- path_exists path ;;
  if there then
    try_exception
      (unlink path ;; print_brand (Removed name) ;; cret true)
      (fun e => print_brand (FailedToRemove name e) ;; cret removed)
  else cret removed.

Definition TOKEN : string := "/mnt/d/Projects/FUSEfs/token.json".
Definition TOKEN2 : string := "/mnt/d/Projects/FUSEfs/credentials.json".

Definition logout : C unit :=
  removed <- logout_one TOKEN "token.json" false ;;
  removed <- logout_one TOKEN2 "credentials.json" removed ;;
  if negb removed then print_brand NoTokenFiles else cret tt.

(** ** The log in [status] *)

(** The line boundaries of [str.splitlines] among the code points below
    256: [\n], [\v], [\f], [\r], [\x1c], [\x1d], [\x1e] and [\x85]. *)
Definition is_break (c : ascii) : bool :=
  match nat_of_ascii c with
  | 10 | 11 | 12 | 13 | 28 | 29 | 30 | 133 => true
  | _ => false
  end%nat.

Definition is_cr (c : ascii) : bool := Nat.eqb (nat_of_ascii c) 13.
Definition is_lf (c : ascii) : bool := Nat.eqb (nat_of_ascii c) 10.

(** [text.splitlines()], for a text of code points below 256; [\r\n] is
    one boundary. *)
Fixpoint splitlines (text : string) : list string :=
  match text with
  | EmptyString => []
  | String c rest =>
      if is_break c then
        EmptyString ::
        (if is_cr c then
           match rest with
           | String c' rest' => if is_lf c' then splitlines rest' else splitlines rest
           | EmptyString => []
           end
         else splitlines rest)
      else
        match splitlines rest with
        | [] => [String c EmptyString]
        | l :: ls => String c l :: ls
        end
  end.

(** [lines[-8:]] *)
Definition last8 (lines : list string) : list string :=
  drop (length lines - 8) lines.

(** [''.join(text.splitlines()[-8:])] *)
Definition log_tail (text : string) : string :=
  String.concat "" (last8 (splitlines text)).

Fixpoint print_lines (lines : list string) : C unit :=
  match lines with
  | [] => cret tt
  | l :: ls => print_brand (LogLine l) ;; print_lines ls
  end.

Section Status.

Variable int_of_text : string -> option Z.

(** [pid and is_process_running(pid)], as the condition it is used for *)
Definition pid_running (pid : option Z) : C bool :=
  match pid with
  | Some n => if Z.eqb n 0%Z then cret false else is_process_running n
  | None => cret false
  end.

Definition status : C unit :=
  pid_myfs <- read_pid int_of_text PID_MYFS ;;
  pid_sync <- read_pid int_of_text PID_SYNC ;;
  myfs_running <- pid_running pid_myfs ;;
  sync_running <- pid_running pid_sync ;;
  print_brand StatusReport ;;
  print_brand (StatusMyfs (if myfs_running then pid_myfs else None)) ;;
  print_brand (StatusSync (if sync_running then pid_sync else None)) ;;
  there <- path_exists SYNC_LOG ;;
  if there then
    text <- read_log ;;
    let tail := log_tail text in
    print_brand RecentLog ;;
    print_lines (splitlines tail)
  else print_brand NoSyncLog.

End Status.

End Cli.

(** A parser of plain decimal numerals, as an instance of [int(text.strip())]
    on the texts [str] produces. *)
Definition decimal_int (text : string) : option Z :=
  Z.of_int <$> NilZero.int_of_string text.

(** The world after [print_brand]. *)
Definition cli_printed (l : Cli.cline) (s : Cli.os) : Cli.os :=
  Cli.set_printed (Cli.printed s ++ [l]) s.

(** The world after the [finally] of [stop_process]: the pid file is gone
    unless its removal is refused. *)
Definition cli_unlinked (path : string) (s : Cli.os) : Cli.os :=
  match Cli.files s !! path with
  | Some _ =>
      if bool_decide (path ∈ Cli.locked s) then s
      else Cli.set_files (delete path (Cli.files s)) s
  | None => s
  end.

(** An operating system with the two programs in place, the file system
    process 41 and the sync daemon 42 running and recorded in their pid
    files; 41 does not react to [SIGTERM]. *)
Definition os_running : Cli.os :=
  {| Cli.files := {[ Cli.MYFS_BIN := "elf"; Cli.DRIVE_SYNC := "py";
                     Cli.PID_MYFS := "41"; Cli.PID_SYNC := "42" ]};
     Cli.locked := ∅;
     Cli.proc_table := {[ 41%Z := true; 42%Z := true ]};
     Cli.stubborn := {[ 41%Z ]};
     Cli.fusermount3 := Cli.ExitZero; Cli.fusermount := Cli.ExitZero;
     Cli.printed := [];
     Cli.group_signal := fun _ _ p => (Cli.NoSuchProcess, p);
     Cli.mkdir_error := fun _ => None; Cli.log_error := None |}.

(** An operating system with the two programs in place and nothing
    running. *)
Definition os_idle : Cli.os :=
  {| Cli.files := {[ Cli.MYFS_BIN := "elf"; Cli.DRIVE_SYNC := "py" ]};
     Cli.locked := ∅;
     Cli.proc_table := ∅;
     Cli.stubborn := ∅;
     Cli.fusermount3 := Cli.ExitZero; Cli.fusermount := Cli.ExitZero;
     Cli.printed := [];
     Cli.group_signal := fun _ _ p => (Cli.NoSuchProcess, p);
     Cli.mkdir_error := fun _ => None; Cli.log_error := None |}.

(** A pid file left behind by a sync daemon that is gone. *)
Definition os_stale : Cli.os :=
  {| Cli.files := {[ Cli.PID_SYNC := "42" ]};
     Cli.locked := ∅;
     Cli.proc_table := ∅;
     Cli.stubborn := ∅;
     Cli.fusermount3 := Cli.ExitZero; Cli.fusermount := Cli.ExitZero;
     Cli.printed := [];
     Cli.group_signal := fun _ _ p => (Cli.NoSuchProcess, p);
     Cli.mkdir_error := fun _ => None; Cli.log_error := None |}.

(** A pid file that holds a number beyond [pid_t]. *)
Definition os_huge : Cli.os :=
  {| Cli.files := {[ Cli.PID_MYFS := "99999999999999999999";
                     Cli.PID_SYNC := "99999999999999999999" ]};
     Cli.locked := ∅;
     Cli.proc_table := ∅;
     Cli.stubborn := ∅;
     Cli.fusermount3 := Cli.ExitZero; Cli.fusermount := Cli.ExitZero;
     Cli.printed := [];
     Cli.group_signal := fun _ _ p => (Cli.NoSuchProcess, p);
     Cli.mkdir_error := fun _ => None; Cli.log_error := None |}.

(** The two programs in place and a regular file [/tmp/f]. *)
Definition os_file : Cli.os :=
  {| Cli.files := {[ Cli.MYFS_BIN := "elf"; Cli.DRIVE_SYNC := "py";
                     "/tmp/f" := "text" ]};
     Cli.locked := ∅;
     Cli.proc_table := ∅;
     Cli.stubborn := ∅;
     Cli.fusermount3 := Cli.ExitZero; Cli.fusermount := Cli.ExitZero;
     Cli.printed := [];
     Cli.group_signal := fun _ _ p => (Cli.NoSuchProcess, p);
     Cli.mkdir_error := fun _ => None; Cli.log_error := None |}.


(** The number a pid file holds, if any, fits [pid_t]. *)
Definition pid_probed (int_of_text : string -> option Z) (path : string)
    (s : Cli.os) : Prop :=
  forall text n,
    Cli.files s !! path = Some text -> int_of_text text = Some n ->
    Cli.pid_fits n = true.

(** The world after the guarded part of [stop_process] for a positive
    number. *)
Definition cli_signalled (name : string) (n : Z) (s : Cli.os) : Cli.os :=
  match Cli.procs s !! n with
  | Some true =>
      cli_printed (Cli.StoppedProcess name n)
        (Cli.set_procs (delete n (Cli.procs s)) s)
  | Some false => cli_printed (Cli.FailedToStop name Cli.PermissionError) s
  | None =>
      cli_printed
        (Cli.FailedToStop name
           (if Cli.pid_fits n then Cli.ProcessLookupError else Cli.OverflowError))
        s
  end.

(** Everything but the processes and the output is as before. *)
Definition same_system (s s' : Cli.os) : Prop :=
  Cli.files s' = Cli.files s /\ Cli.locked s' = Cli.locked s
  /\ Cli.fusermount3 s' = Cli.fusermount3 s
  /\ Cli.fusermount s' = Cli.fusermount s
  /\ Cli.group_signal s' = Cli.group_signal s
  /\ Cli.mkdir_error s' = Cli.mkdir_error s
  /\ Cli.log_error s' = Cli.log_error s.

(** A command that keeps the system and raises nothing that
    [except Exception] lets through. *)
Definition contained {A} (m : Cli.C A) : Prop :=
  forall s,
    same_system s (snd (m s))
    /\ match fst (m s) with
       | Cli.Fail e => Cli.is_exception e = true
       | Cli.Done _ => True
       end.




(** A file that [logout] can remove: it is there and its removal is not
    refused. *)
Definition removable (s : Cli.os) (path : string) : Prop :=
  is_Some (Cli.files s !! path) /\ path ∉ Cli.locked s.

(** The world after one round of the loop of [logout]. *)
Definition logout_step (path name : string) (s : Cli.os) : Cli.os :=
  match Cli.files s !! path with
  | None => s
  | Some _ =>
      if bool_decide (path ∈ Cli.locked s)
      then cli_printed (Cli.FailedToRemove name Cli.PermissionError) s
      else cli_printed (Cli.Removed name)
             (Cli.set_files (delete path (Cli.files s)) s)
  end.

(** An operating system where [fusermount3] is not installed. *)
Definition os_no_fusermount3 : Cli.os :=
  {| Cli.files := Cli.files os_running; Cli.locked := ∅;
     Cli.proc_table := Cli.procs os_running; Cli.stubborn := ∅;
     Cli.fusermount3 := Cli.NotInstalled; Cli.fusermount := Cli.ExitZero;
     Cli.printed := [];
     Cli.group_signal := fun _ _ p => (Cli.NoSuchProcess, p);
     Cli.mkdir_error := fun _ => None; Cli.log_error := None |}.


(** Whether a text holds a line boundary. *)
Fixpoint has_break (text : string) : bool :=
  match text with
  | EmptyString => false
  | String c rest => Cli.is_break c || has_break rest
  end.

(** Three log lines, ended by line feeds. *)
Definition log3 : string :=
  String.concat (String (ascii_of_nat 10) "") ["[UPLOAD] a"; "[UPDATE] b"; "[ERROR] c"; ""].

Definition os_logged : Cli.os :=
  {| Cli.files := {[ Cli.SYNC_LOG := log3; Cli.PID_MYFS := "41" ]};
     Cli.locked := ∅; Cli.proc_table := ∅; Cli.stubborn := ∅;
     Cli.fusermount3 := Cli.ExitZero; Cli.fusermount := Cli.ExitZero;
     Cli.printed := [];
     Cli.group_signal := fun _ _ p => (Cli.NoSuchProcess, p);
     Cli.mkdir_error := fun _ => None; Cli.log_error := None |}.

(** A log whose bytes do not decode. *)
Definition os_garbled : Cli.os :=
  {| Cli.files := {[ Cli.SYNC_LOG := "" ]};
     Cli.locked := ∅; Cli.proc_table := ∅; Cli.stubborn := ∅;
     Cli.fusermount3 := Cli.ExitZero; Cli.fusermount := Cli.ExitZero;
     Cli.printed := [];
     Cli.group_signal := fun _ _ p => (Cli.NoSuchProcess, p);
     Cli.mkdir_error := fun _ => None;
     Cli.log_error := Some Cli.UnicodeDecodeError |}.

(** ** The paths and the daemon on small inputs *)

Example split_ex : Path.split "notes/sub" = ["notes"; "sub"].
Proof. reflexivity. Qed.
Example split_empty : Path.split "" = [""].
Proof. reflexivity. Qed.
Example strip_ex : Path.strip "//a/b/" = "a/b".
Proof. reflexivity. Qed.
Example dirname_ex1 : Path.dirname "notes/sub/data.txt" = "notes/sub".
Proof. reflexivity. Qed.
Example dirname_ex2 : Path.dirname "data.txt" = "".
Proof. reflexivity. Qed.
Example dirname_ex3 : Path.dirname "/data.txt" = "/".
Proof. reflexivity. Qed.
Example dirname_ex4 : Path.dirname "a//b" = "a".
Proof. reflexivity. Qed.
Example relpath_ex :
  Path.relpath "/tmp/myfs_mount/notes/sub/data.txt" "/tmp/myfs_mount" = "notes/sub/data.txt".
Proof. reflexivity. Qed.
Example relpath_ex2 : Path.relpath "/tmp/x" "/tmp/myfs_mount" = "../x".
Proof. reflexivity. Qed.
Example join_ex : Path.join "/tmp/myfs_mount" "notes" = "/tmp/myfs_mount/notes".
Proof. reflexivity. Qed.
Example walk_notes :
  os_walk fs_notes "/tmp/myfs_mount/notes"
  = [("/tmp/myfs_mount/notes", ["report.txt"]);
     ("/tmp/myfs_mount/notes/sub", ["data.txt"])].
Proof. reflexivity. Qed.
Example one_cycle_store :
  store (snd (scan_and_sync fs_notes world0))
  = [folder "id" "notes" DRIVE_FOLDER_ID 0;
     file "id_" "report.txt" "id" 1 "/tmp/myfs_mount/notes/report.txt";
     folder "id__" "sub" "id" 2;
     file "id___" "data.txt" "id__" 3 "/tmp/myfs_mount/notes/sub/data.txt"].
Proof. vm_compute. reflexivity. Qed.
Example one_cycle_record :
  uploaded_set (snd (scan_and_sync fs_notes world0))
  = {[ "notes/report.txt"; "notes/sub/data.txt" ]}.
Proof. vm_compute. reflexivity. Qed.

(** ** How the service calls compute *)

Lemma service_list_plain q w :
  query_plain q = true ->
  service_list q w = List.filter (query_meant q) (store w).
Proof. unfold service_list. by intros ->. Qed.

Section Service.

Variables (parent name : string) (w : world).

(** A lookup whose request succeeds returns the head of what the service
    lists. *)
Lemma find_child_folder_reply :
  next_fails w = false ->
  find_child_folder parent name w
  = (Ok (rid <$> head (service_list (FolderQuery parent name)
                         (after_request (ListFolders parent name) w))),
     after_request (ListFolders parent name) w).
Proof.
  intros Hf. unfold find_child_folder, files_list, list_reply, bind, request.
  rewrite Hf. cbn. by destruct (service_list _ _).
Qed.

Lemma find_drive_file_reply :
  next_fails w = false ->
  find_drive_file parent name w
  = (Ok (head (service_list (FileQuery parent name)
                 (after_request (ListFiles parent name) w))),
     after_request (ListFiles parent name) w).
Proof.
  intros Hf. unfold find_drive_file, files_list, list_reply, bind, request.
  rewrite Hf. cbn. by destruct (service_list _ _).
Qed.

Lemma find_child_folder_fail :
  next_fails w = true ->
  find_child_folder parent name w
  = (Raise HttpError, after_request (ListFolders parent name) w).
Proof.
  intros Hf. unfold find_child_folder, files_list, bind, request.
  by rewrite Hf.
Qed.

Lemma find_drive_file_fail :
  next_fails w = true ->
  find_drive_file parent name w
  = (Raise HttpError, after_request (ListFiles parent name) w).
Proof.
  intros Hf. unfold find_drive_file, files_list, bind, request.
  by rewrite Hf.
Qed.

Hypothesis plain_parent : plain parent = true.
Hypothesis plain_name : plain name = true.

Lemma find_child_folder_ok :
  next_fails w = false ->
  find_child_folder parent name w
  = (Ok (rid <$> head (List.filter (folder_query parent name) (store w))),
     after_request (ListFolders parent name) w).
Proof using plain_parent plain_name.
  intros Hf. rewrite find_child_folder_reply by done.
  rewrite service_list_plain; [done |].
  cbn. by rewrite plain_parent, plain_name.
Qed.

Lemma find_drive_file_ok :
  next_fails w = false ->
  find_drive_file parent name w
  = (Ok (head (List.filter (file_query parent name) (store w))),
     after_request (ListFiles parent name) w).
Proof using plain_parent plain_name.
  intros Hf. rewrite find_drive_file_reply by done.
  rewrite service_list_plain; [done |].
  cbn. by rewrite plain_parent, plain_name.
Qed.

End Service.



Lemma files_create_ok c name parent folder media w :
  next_fails w = false ->
  files_create c name parent folder media w
  = (Ok (new_id (store w)), after_create c name parent folder media w).
Proof.
  intros Hf. unfold files_create, bind, request. by rewrite Hf.
Qed.

Lemma files_create_fail c name parent folder media w :
  next_fails w = true ->
  files_create c name parent folder media w
  = (Raise HttpError, after_request c w).
Proof.
  intros Hf. unfold files_create, bind, request. by rewrite Hf.
Qed.

Lemma files_update_ok file_id media w :
  next_fails w = false ->
  files_update file_id media w = (Ok tt, after_update file_id media w).
Proof.
  intros Hf. unfold files_update, bind, request. by rewrite Hf.
Qed.

Lemma files_update_fail file_id media w :
  next_fails w = true ->
  files_update file_id media w
  = (Raise HttpError, after_request (UpdateFile file_id media) w).
Proof.
  intros Hf. unfold files_update, bind, request. by rewrite Hf.
Qed.

Lemma no_faults_next w : faults w = [] -> next_fails w = false.
Proof. unfold next_fails. by intros ->. Qed.

Lemma new_id_not_empty s : Path.is_empty (new_id s) = false.
Proof. reflexivity. Qed.

Lemma new_id_plain s : plain (new_id s) = true.
Proof.
  unfold new_id. cbn [plain]. generalize (length s) as n.
  induction n as [| n IH]; [reflexivity |].
  cbn [plain negb andb is_quote] in IH |- *.
  destruct n; [reflexivity | exact IH].
Qed.

Lemma DRIVE_FOLDER_ID_plain : plain DRIVE_FOLDER_ID = true.
Proof. reflexivity. Qed.

(** ** Root resolution *)

(** C7: for the root relative directory, [""] or ["."],
    [ensure_drive_path] returns the configured [DRIVE_FOLDER_ID] and leaves
    the world as it is: no request is sent, no folder is created. *)
Theorem ensure_drive_path_root (w : world) :
  ensure_drive_path "" w = (Ok DRIVE_FOLDER_ID, w)
  /\ ensure_drive_path "." w = (Ok DRIVE_FOLDER_ID, w).
Proof. split; reflexivity. Qed.

(** ** A cycle without the notes directory *)

(** C10: when [MOUNT_DIR/notes] does not exist, [scan_and_sync] returns at
    once: the world, with the trace of requests and the set of processed
    paths, is unchanged. *)
Theorem scan_and_sync_no_notes (fs : localfs) (w : world) :
  path_exists fs (Path.join MOUNT_DIR "notes") = false ->
  scan_and_sync fs w = (Ok tt, w).
Proof.
  intros He. unfold scan_and_sync. by rewrite He.
Qed.

Lemma scan_and_sync_no_notes_witness :
  path_exists fs_empty (Path.join MOUNT_DIR "notes") = false
  /\ scan_and_sync fs_empty world0 = (Ok tt, world0).
Proof.
  split; [reflexivity | apply scan_and_sync_no_notes; reflexivity].
Defined.

(** ** Lookups *)

(** C8, as the code has it: for a parent id and a name that hold no quote
    and no backslash, a lookup whose request succeeds returns the first
    match in store order ([None] when nothing matches), prints nothing and
    changes no remote object, however many objects match; the walk goes on
    below the first match. *)
Theorem lookup_first_match (parent name : string) (w : world) :
  plain parent = true -> plain name = true ->
  next_fails w = false ->
  find_child_folder parent name w
  = (Ok (rid <$> head (List.filter (folder_query parent name) (store w))),
     after_request (ListFolders parent name) w)
  /\ find_drive_file parent name w
     = (Ok (head (List.filter (file_query parent name) (store w))),
        after_request (ListFiles parent name) w)
  /\ out (snd (find_child_folder parent name w)) = out w
  /\ out (snd (find_drive_file parent name w)) = out w
  /\ (forall f rest parts,
        List.filter (folder_query parent name) (store w) = f :: rest ->
        Path.is_empty (rid f) = false ->
        walk_parts (name :: parts) parent w
        = walk_parts parts (rid f) (after_request (ListFolders parent name) w)).
Proof.
  intros Hp Hn Hf.
  pose proof (find_child_folder_ok parent name w Hp Hn Hf) as Hc.
  pose proof (find_drive_file_ok parent name w Hp Hn Hf) as Hd.
  repeat split; try done.
  - by rewrite Hc.
  - by rewrite Hd.
  - intros f rest parts Hm Hid. cbn [walk_parts]. unfold bind at 1.
    rewrite Hc, Hm. cbn. unfold bind at 1. rewrite Hid. reflexivity.
Qed.

Lemma lookup_first_match_witness :
  plain DRIVE_FOLDER_ID = true /\ plain "notes" = true
  /\ next_fails world_dup = false
  /\ find_child_folder DRIVE_FOLDER_ID "notes" world_dup
     = (Ok (Some "x1"), after_request (ListFolders DRIVE_FOLDER_ID "notes") world_dup).
Proof.
  do 3 (split; [reflexivity |]).
  exact (proj1 (lookup_first_match DRIVE_FOLDER_ID "notes" world_dup
                  eq_refl eq_refl eq_refl)).
Defined.

(** C8, where the specification does not hold: with two live folders of one name under
    one parent the lookup and the whole resolution print nothing. *)
Lemma ambiguity_not_logged :
  length (List.filter (folder_query DRIVE_FOLDER_ID "notes") (store world_dup)) = 2
  /\ find_child_folder DRIVE_FOLDER_ID "notes" world_dup
     = (Ok (Some "x1"), after_request (ListFolders DRIVE_FOLDER_ID "notes") world_dup)
  /\ out (snd (find_child_folder DRIVE_FOLDER_ID "notes" world_dup)) = []
  /\ fst (ensure_drive_path "notes" world_dup) = Ok "x1"
  /\ out (snd (ensure_drive_path "notes" world_dup)) = [].
Proof. repeat split; reflexivity. Qed.

(** ** Create or update *)

Lemma file_query_same_key parent name o1 o2 :
  same_key o1 o2 -> file_query parent name o1 = file_query parent name o2.
Proof.
  intros (_ & Hn & Hp & Ht). unfold file_query, in_parents.
  by rewrite Hn, Hp, Ht.
Qed.

Lemma first_file_same_key parent name s1 s2 :
  Forall2 same_key s1 s2 ->
  rid <$> head (List.filter (file_query parent name) s2)
  = rid <$> head (List.filter (file_query parent name) s1).
Proof.
  induction 1 as [| o1 o2 s1 s2 Hk _ IH]; [done |].
  cbn [List.filter]. rewrite (file_query_same_key parent name o1 o2 Hk).
  destruct (file_query parent name o2); [| exact IH].
  cbn. f_equal. symmetry. apply Hk.
Qed.

Lemma set_media_same_key file_id media now s :
  Forall2 same_key s (map (set_media file_id media now) s).
Proof.
  induction s as [| o s IH]; cbn; constructor; [| exact IH].
  unfold set_media. by destruct (String.eqb (rid o) file_id).
Qed.

(** X22: for a parent id and a file name that hold no quote and no
    backslash, with a local file that opens and no failing request,
    [upload_or_update] sends one lookup by parent and name; when nothing
    matches it creates the object in that parent and prints [UPLOAD],
    otherwise it updates the first match by its id and prints [UPDATE].
    An update keeps id, name, parents and trashed flag of every object, and
    remote stores that differ only in modification time, content or kind of
    their objects lead to the same decision. *)
Theorem create_or_update (fs : localfs) (local parent name : string) (w : world) :
  plain parent = true -> plain name = true ->
  local ∉ vanished fs ->
  faults w = [] ->
  upload_or_update fs local parent name w
  = (Ok tt,
     match head (List.filter (file_query parent name) (store w)) with
     | None =>
         after_print (LogUpload name)
           (after_create (CreateFile parent name local) name parent false local
              (after_request (ListFiles parent name) w))
     | Some e =>
         after_print (LogUpdate name)
           (after_update (rid e) local
              (after_request (ListFiles parent name) w))
     end)
  /\ (forall e, Forall2 same_key (store w)
                  (store (after_update (rid e) local
                            (after_request (ListFiles parent name) w))))
  /\ (forall s2, Forall2 same_key (store w) s2 ->
        rid <$> head (List.filter (file_query parent name) s2)
        = rid <$> head (List.filter (file_query parent name) (store w))).
Proof.
  intros Hpp Hpn Hr Hf. split; [| split].
  - unfold upload_or_update, try_except, media_file_upload.
    rewrite bool_decide_eq_false_2 by done.
    unfold bind at 1. unfold ret at 1. unfold bind at 1.
    rewrite find_drive_file_ok by (done || by apply no_faults_next).
    destruct (head _) as [e |].
    + unfold bind at 1. rewrite files_update_ok; [done |].
      apply no_faults_next. cbn. by rewrite Hf.
    + unfold bind at 1. rewrite files_create_ok; [done |].
      apply no_faults_next. cbn. by rewrite Hf.
  - intros e. apply set_media_same_key.
  - intros s2. apply first_file_same_key.
Qed.

Lemma create_or_update_witness :
  upload_or_update fs_notes "/tmp/myfs_mount/notes/report.txt" "n1" "report.txt"
    world_report
  = (Ok tt,
     after_print (LogUpdate "report.txt")
       (after_update "r1" "/tmp/myfs_mount/notes/report.txt"
          (after_request (ListFiles "n1" "report.txt") world_report)))
  /\ upload_or_update fs_notes "/tmp/myfs_mount/notes/report.txt" "id" "report.txt"
       world0
     = (Ok tt,
        after_print (LogUpload "report.txt")
          (after_create (CreateFile "id" "report.txt" "/tmp/myfs_mount/notes/report.txt")
             "report.txt" "id" false "/tmp/myfs_mount/notes/report.txt"
             (after_request (ListFiles "id" "report.txt") world0))).
Proof.
  split.
  - refine (proj1 (create_or_update fs_notes "/tmp/myfs_mount/notes/report.txt"
                     "n1" "report.txt" world_report _ _ _ _));
      [reflexivity | reflexivity | cbn; apply not_elem_of_nil | reflexivity].
  - refine (proj1 (create_or_update fs_notes "/tmp/myfs_mount/notes/report.txt"
                     "id" "report.txt" world0 _ _ _ _));
      [reflexivity | reflexivity | cbn; apply not_elem_of_nil | reflexivity].
Defined.

(** C5, where the code misses it: the file name goes into the query text
    between quotes as it is. For the file name [x' and name = 'y] the text
    asks for an object named [x] and named [y]; the remote file of that
    very name under the parent is not listed, and the upload creates a
    second object of the name instead of updating the first. *)
Theorem quoted_name_uploaded_twice :
  query_text (FileQuery "n1" quoted_name)
  = "'n1' in parents and name = 'x' and name = 'y' and trashed = false"
  /\ head (List.filter (file_query "n1" quoted_name) (store world_quoted))
     = Some (file "q1" quoted_name "n1" 1 "/tmp/myfs_mount/notes/x' and name = 'y")
  /\ upload_or_update fs_quoted "/tmp/myfs_mount/notes/x' and name = 'y" "n1"
       quoted_name world_quoted
     = (Ok tt,
        after_print (LogUpload quoted_name)
          (after_create
             (CreateFile "n1" quoted_name "/tmp/myfs_mount/notes/x' and name = 'y")
             quoted_name "n1" false "/tmp/myfs_mount/notes/x' and name = 'y"
             (after_request (ListFiles "n1" quoted_name) world_quoted)))
  /\ length (List.filter (file_query "n1" quoted_name)
               (store (snd (upload_or_update fs_quoted
                              "/tmp/myfs_mount/notes/x' and name = 'y" "n1"
                              quoted_name world_quoted)))) = 2
  /\ calls (snd (scan_and_sync fs_quoted world_quoted))
     = [ListFolders DRIVE_FOLDER_ID "notes";
        ListFiles "n1" quoted_name;
        CreateFile "n1" quoted_name "/tmp/myfs_mount/notes/x' and name = 'y"].
Proof. repeat split; vm_compute; reflexivity. Qed.

(** ** Reasoning about runs *)

Lemma bind_inv {A B} (m : M A) (k : A -> M B) w r w' :
  bind m k w = (r, w') ->
  (exists a w1, m w = (Ok a, w1) /\ k a w1 = (r, w'))
  \/ (exists e, m w = (Raise e, w') /\ r = Raise e).
Proof.
  unfold bind. destruct (m w) as [[a | e] w1]; intros H.
  - left. by exists a, w1.
  - right. exists e. by inversion H.
Qed.

Section Preserves.

Variable P : world -> world -> Prop.
Hypothesis P_refl : forall w, P w w.
Hypothesis P_trans : forall w1 w2 w3, P w1 w2 -> P w2 w3 -> P w1 w3.

Lemma preserves_ret {A} (a : A) : preserves P (ret a).
Proof. intros w. apply P_refl. Qed.

Lemma preserves_raise {A} e : preserves P (@raise A e).
Proof. intros w. apply P_refl. Qed.

Lemma preserves_bind {A B} (m : M A) (k : A -> M B) :
  preserves P m -> (forall a, preserves P (k a)) -> preserves P (bind m k).
Proof.
  intros Hm Hk w. unfold bind. specialize (Hm w).
  destruct (m w) as [[a | e] w1]; cbn in *; [| done].
  eapply P_trans; [exact Hm | apply Hk].
Qed.

Lemma preserves_try {A} (m : M A) e (h : M A) :
  preserves P m -> preserves P h -> preserves P (try_except m e h).
Proof.
  intros Hm Hh w. unfold try_except. specialize (Hm w).
  destruct (m w) as [[a | e'] w1]; cbn in *; [done |].
  destruct e, e'; try done; (eapply P_trans; [exact Hm | apply Hh]).
Qed.

Lemma preserves_for_each {A} (l : list A) (body : A -> M unit) :
  (forall a, preserves P (body a)) -> preserves P (for_each l body).
Proof.
  intros Hb. induction l as [| a l IH]; cbn [for_each].
  - apply preserves_ret.
  - apply preserves_bind; [apply Hb | intros _; exact IH].
Qed.

Lemma preserves_list_reply q : preserves P (list_reply q).
Proof. intros w. apply P_refl. Qed.

Lemma preserves_get_store : preserves P get_store.
Proof. intros w. apply P_refl. Qed.

Lemma preserves_in_uploaded_set p : preserves P (in_uploaded_set p).
Proof. intros w. apply P_refl. Qed.

End Preserves.

Lemma uploads_of_app l cs1 cs2 :
  uploads_of l (cs1 ++ cs2) = uploads_of l cs1 + uploads_of l cs2.
Proof. unfold uploads_of. by rewrite List.filter_app, length_app. Qed.

Lemma grows_refl w : grows w w.
Proof. unfold grows. set_solver. Qed.

Lemma grows_trans w1 w2 w3 : grows w1 w2 -> grows w2 w3 -> grows w1 w3.
Proof. unfold grows. set_solver. Qed.

Lemma quiet_refl w : quiet w w.
Proof. by split. Qed.

Lemma quiet_trans w1 w2 w3 : quiet w1 w2 -> quiet w2 w3 -> quiet w1 w3.
Proof.
  intros [H1 H1'] [H2 H2']. split; [congruence |].
  intros l. by rewrite H2', H1'.
Qed.

Lemma quiet_grows w w' : quiet w w' -> grows w w'.
Proof. intros [H _]. unfold grows. by rewrite H. Qed.

Lemma keeps_once_refl base w : keeps_once base w w.
Proof. by intros H. Qed.

Lemma keeps_once_trans base w1 w2 w3 :
  keeps_once base w1 w2 -> keeps_once base w2 w3 -> keeps_once base w1 w3.
Proof. unfold keeps_once. tauto. Qed.

(** A request that is not an upload, a print and a change of the store are
    quiet. *)
Lemma quiet_request c :
  (forall l, is_upload l c = false) -> preserves quiet (request c).
Proof.
  intros Hc w. unfold request.
  assert (quiet w (after_request c w)) as Hq.
  { split; [done |]. intros l. unfold after_request. cbn [calls].
    rewrite uploads_of_app. unfold uploads_of at 2. cbn [List.filter].
    rewrite Hc. cbn. lia. }
  by destruct (next_fails w).
Qed.

Lemma quiet_print l : preserves quiet (print l).
Proof. intros w. by split. Qed.

Lemma quiet_set_store s : preserves quiet (set_store s).
Proof. intros w. by split. Qed.

Lemma quiet_files_list c q :
  (forall l, is_upload l c = false) -> preserves quiet (files_list c q).
Proof.
  intros Hc. unfold files_list.
  apply preserves_bind; [apply quiet_trans | by apply quiet_request |].
  intros _. apply preserves_list_reply, quiet_refl.
Qed.

Lemma quiet_find_child_folder parent name :
  preserves quiet (find_child_folder parent name).
Proof.
  unfold find_child_folder.
  apply preserves_bind; [apply quiet_trans | by apply quiet_files_list |].
  intros files. apply preserves_ret, quiet_refl.
Qed.

Lemma quiet_find_drive_file parent name :
  preserves quiet (find_drive_file parent name).
Proof.
  unfold find_drive_file.
  apply preserves_bind; [apply quiet_trans | by apply quiet_files_list |].
  intros files. apply preserves_ret, quiet_refl.
Qed.

Lemma quiet_create_folder parent name :
  preserves quiet (create_folder parent name).
Proof.
  unfold create_folder, files_create.
  apply preserves_bind; [apply quiet_trans | by apply quiet_request |].
  intros _. apply preserves_bind; [apply quiet_trans | apply preserves_get_store, quiet_refl |].
  intros s. apply preserves_bind; [apply quiet_trans | apply quiet_set_store |].
  intros _. apply preserves_ret, quiet_refl.
Qed.

Lemma quiet_walk_parts parts parent : preserves quiet (walk_parts parts parent).
Proof.
  revert parent. induction parts as [| p parts IH]; intros parent; cbn [walk_parts].
  - apply preserves_ret, quiet_refl.
  - apply preserves_bind; [apply quiet_trans | apply quiet_find_child_folder |].
    intros found. apply preserves_bind; [apply quiet_trans | | intros i; apply IH].
    destruct found as [i |]; [destruct (Path.is_empty i) |];
      auto using quiet_create_folder, preserves_ret, quiet_refl.
Qed.

Lemma quiet_ensure_drive_path rel_dir : preserves quiet (ensure_drive_path rel_dir).
Proof.
  unfold ensure_drive_path. destruct (_ || _).
  - apply preserves_ret, quiet_refl.
  - apply quiet_walk_parts.
Qed.

(** ** One file *)

Ltac count_uploads :=
  intros l;
  cbn [calls after_print after_request after_update after_create];
  rewrite ?uploads_of_app; unfold uploads_of;
  cbn [List.filter is_upload];
  destruct (String.eqb _ l); cbn [length]; lia.

(** With a readable local file [upload_or_update] returns normally whatever
    the service does: it printed one line, sent at most one upload, of
    [local], and did not touch the set of processed paths. *)
Lemma upload_or_update_readable fs local parent name w :
  local ∉ vanished fs ->
  exists w',
    upload_or_update fs local parent name w = (Ok tt, w')
    /\ uploaded_set w' = uploaded_set w
    /\ (out w' = out w ++ [LogUpload name] \/ out w' = out w ++ [LogUpdate name]
        \/ out w' = out w ++ [LogError local])
    /\ forall l, uploads_of l (calls w')
                 <= uploads_of l (calls w) + (if String.eqb local l then 1 else 0).
Proof.
  intros Hr. unfold upload_or_update, try_except, media_file_upload.
  rewrite bool_decide_eq_false_2 by done.
  unfold bind at 1. unfold ret at 1. unfold bind at 1.
  destruct (next_fails w) eqn:Hf.
  - rewrite find_drive_file_fail by done.
    eexists. split; [reflexivity |]. split; [done |]. split; [by auto |].
    count_uploads.
  - rewrite find_drive_file_reply by done.
    destruct (head _) as [e |]; unfold bind at 1.
    + destruct (next_fails (after_request (ListFiles parent name) w)) eqn:Hf2.
      * rewrite files_update_fail by done.
        eexists. split; [reflexivity |]. split; [done |]. split; [by auto |].
        count_uploads.
      * rewrite files_update_ok by done.
        eexists. split; [reflexivity |]. split; [done |]. split; [by auto |].
        count_uploads.
    + destruct (next_fails (after_request (ListFiles parent name) w)) eqn:Hf2.
      * rewrite files_create_fail by done.
        eexists. split; [reflexivity |]. split; [done |]. split; [by auto |].
        count_uploads.
      * rewrite files_create_ok by done.
        eexists. split; [reflexivity |]. split; [done |]. split; [by auto |].
        count_uploads.
Qed.

(** A local file that cannot be opened makes [upload_or_update] raise
    before any request is sent. *)
Lemma upload_or_update_vanished fs local parent name w :
  local ∈ vanished fs ->
  upload_or_update fs local parent name w = (Raise OSError, w).
Proof.
  intros Hv. unfold upload_or_update, try_except, media_file_upload.
  by rewrite bool_decide_eq_true_2.
Qed.

(** When [upload_or_update] has printed [ERROR], no request of it has
    changed the remote store. *)
Lemma upload_or_update_error fs local parent name w w' :
  upload_or_update fs local parent name w = (Ok tt, w') ->
  out w' = out w ++ [LogError local] ->
  store w' = store w.
Proof.
  destruct (decide (local ∈ vanished fs)) as [Hv | Hv].
  { by rewrite upload_or_update_vanished. }
  unfold upload_or_update, try_except, media_file_upload.
  rewrite bool_decide_eq_false_2 by done.
  unfold bind at 1. unfold ret at 1. unfold bind at 1.
  destruct (next_fails w) eqn:Hf.
  { rewrite find_drive_file_fail by done. intros H _. by inversion H. }
  rewrite find_drive_file_reply by done.
  destruct (head _) as [e |]; unfold bind at 1;
    destruct (next_fails (after_request (ListFiles parent name) w)) eqn:Hf2.
  - rewrite files_update_fail by done. intros H _. by inversion H.
  - rewrite files_update_ok by done. intros H Hout. inversion H; subst.
    cbn in Hout. by apply app_inv_head in Hout.
  - rewrite files_create_fail by done. intros H _. by inversion H.
  - rewrite files_create_ok by done. intros H Hout. inversion H; subst.
    cbn in Hout. by apply app_inv_head in Hout.
Qed.

Lemma reconcile_skip fs root fname w :
  rel_of (Path.join root fname) ∈ uploaded_set w ->
  reconcile fs root fname w = (Ok tt, w).
Proof.
  intros Hin. unfold reconcile, in_uploaded_set, bind at 1.
  fold (rel_of (Path.join root fname)).
  by rewrite bool_decide_eq_true_2.
Qed.

(** What a reconcile step that is not skipped does. *)
Lemma reconcile_fresh fs root fname w :
  rel_of (Path.join root fname) ∉ uploaded_set w ->
  reconcile fs root fname w
  = (drive_parent <- ensure_drive_path (Path.dirname (rel_of (Path.join root fname))) ;;
     upload_or_update fs (Path.join root fname) drive_parent fname ;;
     add_uploaded (rel_of (Path.join root fname))) w.
Proof.
  intros Hin. unfold reconcile, in_uploaded_set. unfold bind at 1.
  fold (rel_of (Path.join root fname)).
  by rewrite bool_decide_eq_false_2.
Qed.

(** A reconcile step that returns normally leaves its path in the set of
    processed paths. *)
Lemma reconcile_ok_recorded fs root fname w w' :
  reconcile fs root fname w = (Ok tt, w') ->
  rel_of (Path.join root fname) ∈ uploaded_set w'.
Proof.
  intros Hrun.
  destruct (decide (rel_of (Path.join root fname) ∈ uploaded_set w)) as [Hin | Hin].
  - rewrite reconcile_skip in Hrun by done. by inversion Hrun; subst.
  - rewrite reconcile_fresh in Hrun by done.
    apply bind_inv in Hrun as [(parent & w1 & _ & Hrun) | (e & _ & ?)]; [| done].
    apply bind_inv in Hrun as [([] & w2 & _ & Hrun) | (e & _ & ?)]; [| done].
    unfold add_uploaded in Hrun. inversion Hrun; subst. cbn. set_solver.
Qed.

(** Every reconcile step keeps the set of processed paths growing. *)
Lemma grows_reconcile fs root fname : preserves grows (reconcile fs root fname).
Proof.
  intros w.
  destruct (decide (rel_of (Path.join root fname) ∈ uploaded_set w)) as [Hin | Hin].
  - rewrite reconcile_skip by done. apply grows_refl.
  - rewrite reconcile_fresh by done. revert w Hin.
    enough (preserves grows
              (drive_parent <- ensure_drive_path (Path.dirname (rel_of (Path.join root fname))) ;;
               upload_or_update fs (Path.join root fname) drive_parent fname ;;
               add_uploaded (rel_of (Path.join root fname)))) as H by (intros w _; apply H).
    apply preserves_bind; [apply grows_trans | |].
    { intros w. apply quiet_grows, quiet_ensure_drive_path. }
    intros parent. apply preserves_bind; [apply grows_trans | |].
    + intros w. destruct (decide (Path.join root fname ∈ vanished fs)) as [Hv | Hv].
      * rewrite upload_or_update_vanished by done. apply grows_refl.
      * destruct (upload_or_update_readable fs (Path.join root fname) parent fname w Hv)
          as (w' & -> & Hs & _). unfold grows. cbn. by rewrite Hs.
    + intros _ w. unfold grows, add_uploaded. cbn. set_solver.
Qed.

(** A reconcile step keeps "uploaded at most once, and then recorded". *)
Lemma keeps_once_reconcile base fs root fname :
  preserves (keeps_once base) (reconcile fs root fname).
Proof.
  intros w Hinv.
  set (local := Path.join root fname).
  destruct (decide (rel_of local ∈ uploaded_set w)) as [Hin | Hin].
  { unfold local in *. by rewrite reconcile_skip. }
  unfold local in *. rewrite reconcile_fresh by done. fold local in Hin |- *.
  unfold bind at 1.
  pose proof (quiet_ensure_drive_path (Path.dirname (rel_of local)) w) as [Hs1 Hc1].
  destruct (ensure_drive_path (Path.dirname (rel_of local)) w) as [[parent | e] w1];
    cbn [snd] in *.
  2: { intros l. rewrite Hc1, Hs1. apply Hinv. }
  unfold bind at 1.
  destruct (decide (local ∈ vanished fs)) as [Hv | Hv].
  { rewrite upload_or_update_vanished by done. cbn [snd].
    intros l. rewrite Hc1, Hs1. apply Hinv. }
  destruct (upload_or_update_readable fs local parent fname w1 Hv)
    as (w2 & -> & Hs2 & _ & Hc2).
  unfold add_uploaded. cbn [snd]. intros l. cbn [calls uploaded_set].
  specialize (Hc2 l). rewrite Hc1 in Hc2. rewrite Hs2, Hs1.
  destruct (Hinv l) as [Hle Hrec].
  destruct (String.eqb_spec local l) as [Heq | Hne].
  - rewrite <- Heq in *. split; [| intros _; apply elem_of_union; left; by apply elem_of_singleton].
    destruct (decide (base local < uploads_of local (calls w))) as [Hlt | Hge].
    + by apply Hrec in Hlt.
    + lia.
  - split; [lia |]. intros Hlt.
    apply elem_of_union. right. apply Hrec. lia.
Qed.

Lemma preserves_scan_and_sync P fs :
  (forall w, P w w) ->
  (forall w1 w2 w3, P w1 w2 -> P w2 w3 -> P w1 w3) ->
  (forall root fname, preserves P (reconcile fs root fname)) ->
  preserves P (scan_and_sync fs).
Proof.
  intros Hrefl Htrans Hrec. unfold scan_and_sync.
  destruct (negb _); [by apply preserves_ret |].
  apply preserves_for_each; [done.. |]. intros [root files].
  by apply preserves_for_each.
Qed.

Lemma preserves_daemon_loop P cycles :
  (forall w, P w w) ->
  (forall w1 w2 w3, P w1 w2 -> P w2 w3 -> P w1 w3) ->
  (forall fs root fname, preserves P (reconcile fs root fname)) ->
  preserves P (daemon_loop cycles).
Proof.
  intros Hrefl Htrans Hrec. induction cycles as [| fs cycles IH]; cbn [daemon_loop].
  - by apply preserves_raise.
  - apply preserves_bind; [done | | by intros _].
    by apply preserves_scan_and_sync.
Qed.

(** [main] runs the loop from a world whose set of processed paths is
    empty. *)
Lemma main_starts_empty cycles w :
  main cycles w
  = try_except (daemon_loop cycles) KeyboardInterrupt (print Stopped)
      {| store := store w; faults := faults w; calls := calls w;
         out := out w ++ [Starting]; uploaded_set := ∅;
         odd_reply := odd_reply w |}.
Proof. reflexivity. Qed.

Lemma main_uploads_once cycles w l :
  uploads_of l (calls (snd (main cycles w))) <= uploads_of l (calls w) + 1.
Proof.
  rewrite main_starts_empty.
  set (base := fun l => uploads_of l (calls w)).
  set (w0 := {| store := store w; faults := faults w; calls := calls w;
                out := out w ++ [Starting]; uploaded_set := ∅;
                odd_reply := odd_reply w |}).
  assert (preserves (keeps_once base)
            (try_except (daemon_loop cycles) KeyboardInterrupt (print Stopped))) as Hp.
  { apply preserves_try;
      [apply keeps_once_trans | | by intros w1 H1].
    apply preserves_daemon_loop;
      [apply keeps_once_refl | apply keeps_once_trans | intros; apply keeps_once_reconcile]. }
  assert (once_inv base w0) as H0.
  { intros l'. unfold base, w0. cbn [calls]. split; lia. }
  apply (Hp w0 H0 l).
Qed.

(** ** Failed uploads *)

(** C1, as the code has it: when the folder of a path not yet processed
    is resolved and [upload_or_update] ends with a caught remote error (it
    printed [ERROR] for the file, and changed nothing in the remote
    store), the reconcile step returns normally and has put the path in the
    set of processed paths all the same; reconciling the path again in the
    session is skipped: the world stays as it is, no request is sent. *)
Theorem failed_path_is_recorded (fs : localfs) (root fname : string)
    (w : world) (parent : string) (w1 w2 : world) :
  rel_of (Path.join root fname) ∉ uploaded_set w ->
  ensure_drive_path (Path.dirname (rel_of (Path.join root fname))) w = (Ok parent, w1) ->
  upload_or_update fs (Path.join root fname) parent fname w1 = (Ok tt, w2) ->
  out w2 = out w1 ++ [LogError (Path.join root fname)] ->
  exists w3,
    reconcile fs root fname w = (Ok tt, w3)
    /\ store w3 = store w1
    /\ rel_of (Path.join root fname) ∈ uploaded_set w3
    /\ forall fs2, reconcile fs2 root fname w3 = (Ok tt, w3).
Proof.
  intros Hin Hres Hup Hout.
  pose proof (upload_or_update_error _ _ _ _ _ _ Hup Hout) as Hstore.
  assert (reconcile fs root fname w
          = (Ok tt, snd (add_uploaded (rel_of (Path.join root fname)) w2))) as Hrun.
  { rewrite reconcile_fresh by done. unfold bind at 1. rewrite Hres.
    unfold bind at 1. by rewrite Hup. }
  pose proof (reconcile_ok_recorded _ _ _ _ _ Hrun) as Hin3.
  eexists. split; [exact Hrun |]. split; [exact Hstore |].
  split; [exact Hin3 |]. intros fs2. by apply reconcile_skip.
Qed.

Lemma failed_path_is_recorded_witness :
  exists w3,
    reconcile fs_notes "/tmp/myfs_mount/notes" "report.txt" world_fail = (Ok tt, w3)
    /\ store w3 = store world_fail
    /\ "notes/report.txt" ∈ uploaded_set w3
    /\ forall fs2, reconcile fs2 "/tmp/myfs_mount/notes" "report.txt" w3 = (Ok tt, w3).
Proof.
  refine (failed_path_is_recorded fs_notes "/tmp/myfs_mount/notes" "report.txt"
            world_fail "n1"
            (after_request (ListFolders DRIVE_FOLDER_ID "notes") world_fail)
            (after_print (LogError "/tmp/myfs_mount/notes/report.txt")
               (after_request (ListFiles "n1" "report.txt")
                  (after_request (ListFolders DRIVE_FOLDER_ID "notes") world_fail)))
            _ _ _ _).
  - apply not_elem_of_empty.
  - vm_compute. reflexivity.
  - vm_compute. reflexivity.
  - vm_compute. reflexivity.
Defined.

(** C1, where the specification does not hold: the lookup of [report.txt] fails with
    [HttpError], the file is printed as [ERROR], its path is in the set of
    processed paths afterwards and the next reconcile of it sends nothing. *)
Lemma failed_path_not_retried :
  let r := reconcile fs_notes "/tmp/myfs_mount/notes" "report.txt" world_fail in
  fst r = Ok tt
  /\ out (snd r) = [LogError "/tmp/myfs_mount/notes/report.txt"]
  /\ store (snd r) = store world_fail
  /\ "notes/report.txt" ∈ uploaded_set (snd r)
  /\ reconcile fs_notes "/tmp/myfs_mount/notes" "report.txt" (snd r) = (Ok tt, snd r).
Proof.
  cbv zeta. repeat split; vm_compute; reflexivity.
Qed.




(** ** No second upload in a session *)

(** C4: after a reconcile step of a path that returned normally (so also
    after one that uploaded or updated), the path is in the set of
    processed paths, and every later reconcile of it in the session, with
    whatever the set has grown to, is skipped and leaves the world as it
    is. The set is empty when [main] enters its loop, every cycle of the
    loop only adds to it, and over a whole run of [main] no local path is
    uploaded more than once. *)
Theorem no_duplicate_upload (fs : localfs) (root fname : string) (w w' : world) :
  reconcile fs root fname w = (Ok tt, w') ->
  rel_of (Path.join root fname) ∈ uploaded_set w'
  /\ (forall fs2 w2, grows w' w2 -> reconcile fs2 root fname w2 = (Ok tt, w2))
  /\ (forall cycles w0,
        main cycles w0
        = try_except (daemon_loop cycles) KeyboardInterrupt (print Stopped)
            {| store := store w0; faults := faults w0; calls := calls w0;
               out := out w0 ++ [Starting]; uploaded_set := ∅;
               odd_reply := odd_reply w0 |})
  /\ (forall cycles w0, uploaded_set w0 ⊆ uploaded_set (snd (daemon_loop cycles w0)))
  /\ (forall cycles w0 l,
        uploads_of l (calls (snd (main cycles w0))) <= uploads_of l (calls w0) + 1).
Proof.
  intros Hrun.
  pose proof (reconcile_ok_recorded _ _ _ _ _ Hrun) as Hin.
  split; [done |]. split; [| split; [| split]].
  - intros fs2 w2 Hg. apply reconcile_skip. by apply Hg.
  - intros cycles w0. apply main_starts_empty.
  - intros cycles w0.
    apply (preserves_daemon_loop grows cycles grows_refl grows_trans grows_reconcile).
  - intros cycles w0 l. apply main_uploads_once.
Qed.

Lemma no_duplicate_upload_witness :
  "notes/report.txt" ∈
    uploaded_set (snd (reconcile fs_notes "/tmp/myfs_mount/notes" "report.txt" world0)).
Proof.
  refine (proj1 (no_duplicate_upload fs_notes "/tmp/myfs_mount/notes" "report.txt"
                   world0 _ _)).
  vm_compute. reflexivity.
Defined.

Example second_cycle_sends_nothing :
  let w1 := snd (scan_and_sync fs_notes world0) in
  length (calls w1) = 9 /\ scan_and_sync fs_notes w1 = (Ok tt, w1).
Proof. cbv zeta. split; vm_compute; reflexivity. Qed.

(** ** Resolving a directory *)

Lemma ensure_drive_path_segments rel_dir :
  ensure_drive_path rel_dir = walk_parts (segments rel_dir) DRIVE_FOLDER_ID.
Proof.
  unfold ensure_drive_path, segments. by destruct (_ || _).
Qed.

Lemma with_calls_nil w : with_calls [] w = w.
Proof. destruct w. unfold with_calls. cbn. by rewrite app_nil_r. Qed.

Lemma with_calls_app cs1 cs2 w :
  with_calls cs2 (with_calls cs1 w) = with_calls (cs1 ++ cs2) w.
Proof. unfold with_calls. cbn. by rewrite app_assoc. Qed.

Lemma after_request_no_faults c w :
  faults w = [] -> after_request c w = with_calls [c] w.
Proof. intros H. unfold after_request, with_calls. by rewrite H. Qed.

Lemma folder_query_new_folder s parent name :
  folder_query parent name (new_folder s parent name) = true.
Proof.
  unfold folder_query, in_parents. cbn. by rewrite !String.eqb_refl.
Qed.

Lemma first_folder_in s parent name f :
  first_folder s parent name = Some f -> In f s.
Proof.
  unfold first_folder. intros Hf.
  assert (In f (List.filter (folder_query parent name) s)) as Hin.
  { destruct (List.filter _ s); inversion Hf; subst. by left. }
  by apply List.filter_In in Hin as [Hin _].
Qed.

Lemma first_folder_id_plain s parent name f :
  ids_plain s -> first_folder s parent name = Some f ->
  Path.is_empty (rid f) = false /\ plain (rid f) = true.
Proof.
  unfold ids_plain. intros Hs Hf%first_folder_in.
  rewrite List.Forall_forall in Hs. by apply Hs.
Qed.

Lemma ids_plain_new_folder s parent name :
  ids_plain s -> ids_plain (s ++ [new_folder s parent name]).
Proof.
  intros Hs. apply Forall_app. split; [done |].
  constructor; [| constructor]. split; [reflexivity | apply new_id_plain].
Qed.

(** Kept objects answer a lookup alike. *)
Lemma kept_refl o : kept o o.
Proof. by repeat split. Qed.

Lemma kept_trans o1 o2 o3 : kept o1 o2 -> kept o2 o3 -> kept o1 o3.
Proof.
  intros (? & ? & ? & ? & ?) (? & ? & ? & ? & ?). repeat split; congruence.
Qed.

Lemma Forall2_kept_refl s : Forall2 kept s s.
Proof. induction s; constructor; [apply kept_refl | done]. Qed.

Lemma folder_query_kept parent name o1 o2 :
  kept o1 o2 -> folder_query parent name o2 = folder_query parent name o1.
Proof.
  intros (_ & Hn & Hp & Hk & Ht). unfold folder_query, in_parents.
  by rewrite Hn, Hp, Hk, Ht.
Qed.

Lemma first_folder_kept_found s s' ext parent name f :
  Forall2 kept s s' ->
  first_folder s parent name = Some f ->
  exists f', first_folder (s' ++ ext) parent name = Some f' /\ rid f' = rid f.
Proof.
  unfold first_folder. induction 1 as [| o o' s s' Hk _ IH]; [done |].
  cbn [List.filter app]. rewrite (folder_query_kept parent name o o' Hk).
  destruct (folder_query parent name o); [| exact IH].
  cbn. intros [= <-]. exists o'. split; [done |]. symmetry. apply Hk.
Qed.

Lemma first_folder_kept_new s s' o o' ext parent name :
  Forall2 kept s s' -> kept o o' ->
  first_folder s parent name = None ->
  folder_query parent name o = true ->
  first_folder (s' ++ o' :: ext) parent name = Some o'.
Proof.
  unfold first_folder. intros Hs Ho. induction Hs as [| a a' s s' Hk _ IH].
  - intros _ Hq. cbn. by rewrite (folder_query_kept parent name o o' Ho), Hq.
  - cbn [List.filter app]. rewrite (folder_query_kept parent name a a' Hk).
    destruct (folder_query parent name a); [done | exact IH].
Qed.

(** One step of the walk, by what the lookup answers. *)
Lemma walk_parts_step_found p parts parent w f :
  plain parent = true -> plain p = true ->
  next_fails w = false ->
  first_folder (store w) parent p = Some f ->
  Path.is_empty (rid f) = false ->
  walk_parts (p :: parts) parent w
  = walk_parts parts (rid f) (after_request (ListFolders parent p) w).
Proof.
  intros Hpp Hp Hf Hq Hid. cbn [walk_parts]. unfold bind at 1.
  rewrite find_child_folder_ok by done. fold (first_folder (store w) parent p).
  rewrite Hq. cbn [fmap option_fmap option_map]. unfold bind at 1.
  by rewrite Hid.
Qed.

Lemma walk_parts_step_none p parts parent w :
  plain parent = true -> plain p = true ->
  next_fails w = false ->
  first_folder (store w) parent p = None ->
  walk_parts (p :: parts) parent w
  = (parent' <- create_folder parent p ;; walk_parts parts parent')
      (after_request (ListFolders parent p) w).
Proof.
  intros Hpp Hp Hf Hq. cbn [walk_parts]. unfold bind at 1.
  rewrite find_child_folder_ok by done. fold (first_folder (store w) parent p).
  by rewrite Hq.
Qed.

Lemma walk_parts_step_fail p parts parent w :
  next_fails w = true ->
  walk_parts (p :: parts) parent w
  = (Raise HttpError, after_request (ListFolders parent p) w).
Proof.
  intros Hf. cbn [walk_parts]. unfold bind at 1.
  by rewrite find_child_folder_fail.
Qed.


(** Resolving again, in a store that has kept the objects of the first
    resolution and gained others after them, and without failing requests,
    finds the same folder by lookups alone. *)
Lemma walk_parts_again parts :
  forall parent w id w1,
    Forall (fun p => plain p = true) parts -> plain parent = true ->
    ids_plain (store w) ->
    walk_parts parts parent w = (Ok id, w1) ->
    (exists added, store w1 = store w ++ added)
    /\ forall w2 s2 ext,
         store w2 = s2 ++ ext -> Forall2 kept (store w1) s2 -> faults w2 = [] ->
         exists cs,
           walk_parts parts parent w2 = (Ok id, with_calls cs w2)
           /\ Forall (fun c => is_lookup c = true) cs
           /\ length cs = length parts.
Proof.
  induction parts as [| p parts IH]; intros parent w id w1 Hparts Hpp Hids Hrun.
  - inversion Hrun; subst. split; [exists []; by rewrite app_nil_r |].
    intros w2 s2 ext _ _ _. exists []. by rewrite with_calls_nil.
  - apply Forall_cons in Hparts as [Hp Hparts].
    destruct (next_fails w) eqn:Hnf.
    { by rewrite walk_parts_step_fail in Hrun. }
    destruct (first_folder (store w) parent p) as [f |] eqn:Hq.
    + destruct (first_folder_id_plain _ _ _ _ Hids Hq) as [Hid Hidp].
      rewrite (walk_parts_step_found p parts parent w f Hpp Hp Hnf Hq Hid) in Hrun.
      destruct (IH (rid f) (after_request (ListFolders parent p) w) id w1
                  Hparts Hidp Hids Hrun) as [[added Hst] Hagain].
      split; [by exists added |].
      intros w2 s2 ext Hst2 Hk Hf2.
      cbn in Hst. rewrite Hst in Hk.
      apply Forall2_app_inv_l in Hk as (s2a & s2b & Hka & Hkb & ->).
      destruct (first_folder_kept_found _ _ (s2b ++ ext) parent p f Hka Hq)
        as (f' & Hq2 & Hrid).
      rewrite app_assoc, <- Hst2 in Hq2.
      rewrite (walk_parts_step_found p parts parent w2 f' Hpp Hp
                 (no_faults_next _ Hf2) Hq2) by by rewrite Hrid.
      rewrite Hrid, after_request_no_faults by done.
      destruct (Hagain (with_calls [ListFolders parent p] w2) (s2a ++ s2b) ext)
        as (cs & Hrun2 & Hall & Hlen); [done | | done |].
      { rewrite Hst. by apply Forall2_app. }
      exists (ListFolders parent p :: cs). rewrite Hrun2, with_calls_app.
      split; [done |]. split; [by constructor | cbn; by rewrite Hlen].
    + rewrite (walk_parts_step_none p parts parent w Hpp Hp Hnf Hq) in Hrun.
      unfold bind at 1 in Hrun. unfold create_folder in Hrun.
      destruct (next_fails (after_request (ListFolders parent p) w)) eqn:Hnf2.
      { by rewrite files_create_fail in Hrun. }
      rewrite files_create_ok in Hrun by done.
      apply IH in Hrun as [[added Hst] Hagain];
        [| done | apply new_id_plain | by apply ids_plain_new_folder].
      cbn in Hst.
      split; [exists (new_folder (store w) parent p :: added);
              by rewrite Hst, <- app_assoc |].
      intros w2 s2 ext Hst2 Hk Hf2.
      pose proof Hk as Hk'.
      rewrite Hst, <- app_assoc in Hk. cbn [app] in Hk.
      apply Forall2_app_inv_l in Hk as (s2a & s2b & Hka & Hkb & ->).
      apply Forall2_cons_inv_l in Hkb as (nf' & s2c & Hnf' & _ & ->).
      assert (first_folder (store w2) parent p = Some nf') as Hq2.
      { rewrite Hst2, <- app_assoc. cbn [app].
        eapply first_folder_kept_new; [exact Hka | exact Hnf' | exact Hq |].
        apply folder_query_new_folder. }
      assert (rid nf' = new_id (store w)) as Hrid.
      { symmetry. apply Hnf'. }
      rewrite (walk_parts_step_found p parts parent w2 nf' Hpp Hp
                 (no_faults_next _ Hf2) Hq2) by by rewrite Hrid.
      rewrite Hrid, after_request_no_faults by done.
      destruct (Hagain (with_calls [ListFolders parent p] w2)
                  (s2a ++ nf' :: s2c) ext)
        as (cs & Hrun2 & Hall & Hlen); [done | done | done |].
      exists (ListFolders parent p :: cs). cbn in Hrun2 |- *.
      rewrite Hrun2, with_calls_app.
      split; [done |]. split; [by constructor | by rewrite Hlen].
Qed.

(** The walk creates at most one folder for each segment. *)
Lemma walk_parts_creates parts :
  forall parent w,
    exists cs,
      calls (snd (walk_parts parts parent w)) = calls w ++ cs
      /\ length (List.filter is_create_folder cs) <= length parts.
Proof.
  induction parts as [| p parts IH]; intros parent w.
  - exists []. cbn. by rewrite app_nil_r.
  - cbn [walk_parts]. unfold bind at 1.
    destruct (next_fails w) eqn:Hnf.
    { rewrite find_child_folder_fail by done.
      exists [ListFolders parent p]. cbn. split; [done | lia]. }
    rewrite find_child_folder_reply by done.
    set (w1 := after_request (ListFolders parent p) w).
    assert (forall i, exists cs,
              calls (snd (walk_parts parts i w1)) = calls w ++ cs
              /\ length (List.filter is_create_folder cs) <= length (p :: parts))
      as Hfound.
    { intros i. destruct (IH i w1) as (cs & Hcs & Hlen).
      exists (ListFolders parent p :: cs). rewrite Hcs. cbn.
      rewrite <- app_assoc. split; [done | lia]. }
    assert (exists cs,
              calls (snd ((parent' <- create_folder parent p ;;
                           walk_parts parts parent') w1)) = calls w ++ cs
              /\ length (List.filter is_create_folder cs) <= length (p :: parts))
      as Hcreate.
    { unfold bind at 1. unfold create_folder.
      destruct (next_fails w1) eqn:Hnf1.
      - rewrite files_create_fail by done.
        exists [ListFolders parent p; CreateFolder parent p]. cbn.
        rewrite <- app_assoc. split; [done | lia].
      - rewrite files_create_ok by done.
        destruct (IH (new_id (store w1))
                    (after_create (CreateFolder parent p) p parent true "" w1))
          as (cs & Hcs & Hlen).
        exists (ListFolders parent p :: CreateFolder parent p :: cs).
        rewrite Hcs. cbn. rewrite <- !app_assoc. split; [done | lia]. }
    unfold bind at 1.
    destruct (head _) as [f |]; cbn [fmap option_fmap option_map];
      [destruct (Path.is_empty (rid f)) |]; [exact Hcreate | apply Hfound | exact Hcreate].
Qed.




Example mirror_a_b_c :
  calls (snd (reconcile fs_notes "/tmp/myfs_mount/a/b" "c.txt" world0))
  = [ListFolders DRIVE_FOLDER_ID "a"; CreateFolder DRIVE_FOLDER_ID "a";
     ListFolders "id" "b"; CreateFolder "id" "b";
     ListFiles "id_" "c.txt";
     CreateFile "id_" "c.txt" "/tmp/myfs_mount/a/b/c.txt"].
Proof. vm_compute. reflexivity. Qed.

(** ** Facts about paths *)

Module PathFacts.
Import Path.

Lemma append_nil (b : string) : "" +:+ b = b.
Proof. reflexivity. Qed.

Lemma append_cons (c : ascii) (a b : string) :
  String c a +:+ b = String c (a +:+ b).
Proof. reflexivity. Qed.

Ltac unfold_append := rewrite ?append_cons, ?append_nil.

Lemma append_assoc (a b c : string) : (a +:+ b) +:+ c = a +:+ (b +:+ c).
Proof.
  induction a as [| x a IH]; unfold_append; [done | by rewrite IH].
Qed.

Lemma split_not_nil s : split s <> [].
Proof.
  destruct s as [| c s]; cbn; [done |].
  destruct (is_sep c); [done |]. by destruct (split s).
Qed.

Lemma split_app_sep a b : split (a +:+ String sep b) = split a ++ split b.
Proof.
  induction a as [| c a IH]; unfold_append; cbn; [done |].
  destruct (is_sep c); [by rewrite IH |].
  rewrite IH. pose proof (split_not_nil a). by destruct (split a).
Qed.

Lemma split_no_sep s : has_sep s = false -> split s = [s].
Proof.
  induction s as [| c s IH]; cbn; [done |].
  intros [Hc Hs]%orb_false_iff. rewrite Hc. by rewrite IH.
Qed.

Lemma has_sep_app a b : has_sep (a +:+ b) = has_sep a || has_sep b.
Proof.
  induction a as [| c a IH]; unfold_append; cbn; [done |].
  by rewrite IH, orb_assoc.
Qed.

Lemma endswith_sep_app a b :
  is_empty b = false -> endswith_sep (a +:+ b) = endswith_sep b.
Proof.
  intros Hb. induction a as [| c a IH]; unfold_append; [done |].
  cbn [endswith_sep]. rewrite IH. destruct (a +:+ b) eqn:Hab; [| done].
  destruct a, b; done.
Qed.

Lemma endswith_no_sep s : has_sep s = false -> endswith_sep s = false.
Proof.
  induction s as [| c s IH]; cbn; [done |].
  intros [Hc Hs]%orb_false_iff. destruct s; [done | by apply IH].
Qed.

Lemma rstrip_id a : endswith_sep a = false -> rstrip a = a.
Proof.
  induction a as [| c a IH]; [done |].
  intros He. cbn [rstrip]. destruct a as [| c' a].
  - cbn in *. by rewrite He.
  - rewrite IH by done. cbn. by rewrite andb_false_r.
Qed.

Lemma rstrip_app_sep a : rstrip (a +:+ String sep "") = rstrip a.
Proof.
  induction a as [| c a IH]; unfold_append; cbn; [done | by rewrite IH].
Qed.

Lemma head_part_app a b :
  has_sep b = false -> head_part (a +:+ String sep b) = a +:+ String sep "".
Proof.
  intros Hb. induction a as [| c a IH]; unfold_append; cbn.
  - by rewrite Hb.
  - rewrite has_sep_app. cbn. rewrite orb_true_r. by rewrite IH.
Qed.

Lemma is_empty_app a b : is_empty a = false -> is_empty (a +:+ b) = false.
Proof. by destruct a. Qed.

Lemma dirname_app a b :
  is_empty a = false -> endswith_sep a = false -> has_sep b = false ->
  dirname (a +:+ String sep b) = a.
Proof.
  intros Ha He Hb. unfold dirname.
  rewrite head_part_app, rstrip_app_sep, rstrip_id by done.
  by rewrite Ha.
Qed.

Lemma valid_name_inv n :
  valid_name n = true ->
  is_empty n = false /\ has_sep n = false
  /\ String.eqb n "." = false /\ String.eqb n ".." = false.
Proof.
  unfold valid_name. rewrite !andb_true_iff, !negb_true_iff. tauto.
Qed.

Lemma valid_name_start n : valid_name n = true -> startswith_sep n = false.
Proof.
  intros (He & Hs & _)%valid_name_inv. destruct n as [| c n]; [done |].
  cbn in *. by apply orb_false_iff in Hs as [Hc _].
Qed.

Lemma join_valid a b :
  extendable a -> valid_name b = true -> join a b = a +:+ "/" +:+ b.
Proof.
  intros [Ha He] Hb. unfold join.
  by rewrite (valid_name_start b Hb), Ha, He.
Qed.

Lemma extendable_step a b :
  valid_name b = true -> extendable (a +:+ "/" +:+ b).
Proof.
  intros (He & Hs & _)%valid_name_inv. split.
  - destruct a; [| done]. by unfold_append.
  - unfold_append. rewrite endswith_sep_app by done.
    cbn [endswith_sep]. destruct b; [done |]. by apply endswith_no_sep.
Qed.

Lemma cat_path_cons top d names :
  cat_path top (d :: names) = cat_path (top +:+ "/" +:+ d) names.
Proof. reflexivity. Qed.

Lemma cat_path_snoc top names d :
  cat_path top (names ++ [d]) = cat_path top names +:+ "/" +:+ d.
Proof. unfold cat_path. by rewrite fold_left_app. Qed.

Lemma cat_path_prefix a b names :
  cat_path (a +:+ b) names = a +:+ cat_path b names.
Proof.
  revert b. induction names as [| d names IH]; intros b; [done |].
  by rewrite !cat_path_cons, append_assoc, IH.
Qed.

Lemma extendable_cat_path top names :
  extendable top -> Forall (fun n => valid_name n = true) names ->
  extendable (cat_path top names).
Proof.
  intros Ht Hn. revert top Ht.
  induction Hn as [| d names Hd _ IH]; intros top Ht; [done |].
  rewrite cat_path_cons. by apply IH, extendable_step.
Qed.

Lemma split_cat_path top names :
  Forall (fun n => valid_name n = true) names ->
  split (cat_path top names) = split top ++ names.
Proof.
  intros Hn. revert top.
  induction Hn as [| d names Hd _ IH]; intros top.
  - by rewrite app_nil_r.
  - rewrite cat_path_cons, IH. unfold_append. rewrite split_app_sep.
    apply valid_name_inv in Hd as (_ & Hs & _).
    by rewrite (split_no_sep d Hs), <- app_assoc.
Qed.

Lemma fold_left_join top names :
  extendable top -> Forall (fun n => valid_name n = true) names ->
  fold_left join names top = cat_path top names.
Proof.
  intros Ht Hn. revert top Ht.
  induction Hn as [| d names Hd _ IH]; intros top Ht; [done |].
  cbn [fold_left]. rewrite join_valid by done.
  rewrite cat_path_cons. by apply IH, extendable_step.
Qed.

Lemma norm_comps_valid acc names :
  Forall (fun n => valid_name n = true) names ->
  norm_comps acc names = rev acc ++ names.
Proof.
  intros Hn. revert acc.
  induction Hn as [| d names Hd _ IH]; intros acc; cbn [norm_comps].
  - by rewrite app_nil_r.
  - apply valid_name_inv in Hd as (He & _ & Hd1 & Hd2).
    rewrite He, Hd1, Hd2. cbn [orb]. rewrite IH. cbn [rev].
    by rewrite <- app_assoc.
Qed.

End PathFacts.

(** ** The scanner *)

Section Scanner.
Import Path PathFacts.

Let valid_names := Forall (fun n => valid_name n = true).

Lemma node_ind' (P : node -> Prop) :
  (forall name, P (File name)) ->
  (forall name children, Forall P children -> P (Dir name children)) ->
  forall n, P n.
Proof.
  intros Hfile Hdir. fix IH 1. intros [name | name children].
  - apply Hfile.
  - apply Hdir. induction children as [| c children IHc]; constructor.
    + apply IH.
    + apply IHc.
Qed.

Lemma file_names_valid entries :
  forallb valid_node entries = true -> valid_names (file_names entries).
Proof.
  induction entries as [| [name | name children] entries IH]; cbn.
  - constructor.
  - rewrite andb_true_r. intros [Hn He]%andb_true_iff.
    constructor; [done | by apply IH].
  - intros [_ He]%andb_true_iff. by apply IH.
Qed.

(** Every directory [os.walk] yields lies below [top], and the names on
    the way and the file names are valid. *)
Lemma walk_node_inv n :
  forall top root files,
    match n with File _ => True | Dir _ children => forallb valid_node children = true end ->
    extendable top ->
    In (root, files) (walk_node top n) ->
    exists ds, valid_names ds /\ root = cat_path top ds /\ valid_names files.
Proof.
  induction n as [name | name children IH] using node_ind';
    intros top root files Hv Ht Hin; [done |].
  cbn [walk_node] in Hin. destruct Hin as [Heq | Hin].
  - inversion Heq; subst. exists []. split; [constructor |].
    split; [done | by apply file_names_valid].
  - apply in_flat_map in Hin as (c & Hc & Hin).
    rewrite forallb_forall in Hv. specialize (Hv c Hc).
    rewrite List.Forall_forall in IH. specialize (IH c Hc).
    assert (valid_name (node_name c) = true) as Hname.
    { destruct c; cbn in Hv; by apply andb_true_iff in Hv as [? _]. }
    rewrite join_valid in Hin by done.
    destruct (IH (top +:+ "/" +:+ node_name c) root files) as (ds & Hds & -> & Hf).
    + destruct c; [done |]. cbn in Hv. by apply andb_true_iff in Hv as [_ ?].
    + by apply extendable_step.
    + done.
    + exists (node_name c :: ds). split; [by constructor | done].
Qed.

Lemma lstrip_id a : startswith_sep a = false -> lstrip a = a.
Proof. destruct a as [| c a]; cbn; [done | by intros ->]. Qed.

(** [os.path.relpath] of a path below [MOUNT_DIR]. *)
Lemma rel_of_cat_path n names :
  valid_names (n :: names) ->
  rel_of (cat_path MOUNT_DIR (n :: names)) = cat_path n names.
Proof.
  intros Hv. unfold rel_of, relpath, abs_comps.
  rewrite split_cat_path by done.
  change (split MOUNT_DIR) with [""; "tmp"; "myfs_mount"].
  change (norm_comps [] ([""; "tmp"; "myfs_mount"] ++ n :: names))
    with (norm_comps ["myfs_mount"; "tmp"] (n :: names)).
  change (norm_comps [] [""; "tmp"; "myfs_mount"]) with ["tmp"; "myfs_mount"].
  rewrite (norm_comps_valid ["myfs_mount"; "tmp"] (n :: names) Hv).
  change (rev ["myfs_mount"; "tmp"] ++ n :: names)
    with ("tmp" :: "myfs_mount" :: n :: names).
  change (common_len ["tmp"; "myfs_mount"] ("tmp" :: "myfs_mount" :: n :: names))
    with 2.
  cbn [length Nat.sub repeat drop app join_all].
  inversion Hv as [| ? ? Hn Hnames]; subst.
  apply fold_left_join; [| done].
  apply valid_name_inv in Hn as (He & Hs & _).
  split; [done | by apply endswith_no_sep].
Qed.

Lemma candidates_inv fs root fname :
  valid_notes fs ->
  In (root, fname) (candidates fs) ->
  exists ds,
    valid_names ds /\ valid_name fname = true
    /\ root = cat_path MOUNT_DIR ("notes" :: ds).
Proof.
  intros Hv Hin. unfold candidates in Hin.
  apply in_flat_map in Hin as ([root' files] & Hwalk & Hin).
  apply in_map_iff in Hin as (f & Heq & Hf). inversion Heq; subst.
  unfold os_walk in Hwalk.
  destruct (lookup_path fs (join MOUNT_DIR "notes")) as [n |] eqn:Hl; [| done].
  destruct (walk_node_inv n (join MOUNT_DIR "notes") root files)
    as (ds & Hds & -> & Hfiles); [| done | done |].
  { destruct n as [| name children]; [done |]. by eapply Hv. }
  exists ds. split; [done |]. split; [| done].
  unfold valid_names in Hfiles. rewrite List.Forall_forall in Hfiles.
  by apply Hfiles.
Qed.

End Scanner.

(** C9: for every file the scan visits, in a tree below [MOUNT_DIR/notes]
    whose entries have valid names, the path [scan_and_sync] works with is
    relative to [MOUNT_DIR], the directory one level above the scanned
    [notes]: it begins with [notes/], the local path is [MOUNT_DIR] followed
    by it, and the first folder resolved for it on the remote side is
    [notes]. *)
Theorem scanner_paths (fs : localfs) (root fname : string) :
  valid_notes fs ->
  In (root, fname) (candidates fs) ->
  exists rest ds,
    rel_of (Path.join root fname) = "notes/" +:+ rest
    /\ Path.join root fname = MOUNT_DIR +:+ "/" +:+ rel_of (Path.join root fname)
    /\ segments (Path.dirname (rel_of (Path.join root fname))) = "notes" :: ds.
Proof.
  intros Hv Hin.
  destruct (candidates_inv fs root fname Hv Hin) as (ds & Hds & Hf & ->).
  assert (extendable "notes") as Hnotes by done.
  assert (extendable (cat_path MOUNT_DIR ("notes" :: ds))) as Hroot.
  { apply PathFacts.extendable_cat_path; [done | by constructor]. }
  assert (Forall (fun n => valid_name n = true) ("notes" :: ds ++ [fname])) as Hall.
  { constructor; [done |]. apply Forall_app. split; [done | by constructor]. }
  rewrite PathFacts.join_valid by done.
  rewrite <- PathFacts.cat_path_snoc.
  change (cat_path MOUNT_DIR (("notes" :: ds) ++ [fname]))
    with (cat_path MOUNT_DIR ("notes" :: ds ++ [fname])).
  rewrite rel_of_cat_path by done.
  exists (match ds ++ [fname] with
          | [] => ""
          | x :: l => cat_path x l
          end), ds.
  split; [| split].
  - destruct (ds ++ [fname]) as [| x l] eqn:Hl; [by destruct ds |].
    rewrite PathFacts.cat_path_cons.
    change ("notes" +:+ "/" +:+ x) with ("notes/" +:+ x).
    apply PathFacts.cat_path_prefix.
  - rewrite PathFacts.cat_path_cons.
    rewrite (PathFacts.cat_path_prefix MOUNT_DIR ("/" +:+ "notes")).
    by rewrite (PathFacts.cat_path_prefix "/" "notes").
  - rewrite PathFacts.cat_path_snoc.
    assert (extendable (cat_path "notes" ds)) as [He Hs]
      by by apply PathFacts.extendable_cat_path.
    change ("/" +:+ fname) with (String Path.sep fname).
    rewrite PathFacts.dirname_app; [| done | done |].
    2: { by apply PathFacts.valid_name_inv in Hf as (_ & ? & _). }
    assert (exists tl, cat_path "notes" ds = String "n" tl) as [tl Htl].
    { change "notes" with ("notes" +:+ "").
      rewrite PathFacts.cat_path_prefix. by eexists. }
    unfold segments, Path.strip.
    rewrite lstrip_id by by rewrite Htl.
    rewrite PathFacts.rstrip_id by done.
    rewrite PathFacts.split_cat_path by done.
    by rewrite Htl.
Qed.

Lemma scanner_paths_witness :
  exists rest ds,
    rel_of (Path.join "/tmp/myfs_mount/notes/sub" "data.txt") = "notes/" +:+ rest
    /\ Path.join "/tmp/myfs_mount/notes/sub" "data.txt"
       = MOUNT_DIR +:+ "/" +:+ rel_of (Path.join "/tmp/myfs_mount/notes/sub" "data.txt")
    /\ segments (Path.dirname (rel_of (Path.join "/tmp/myfs_mount/notes/sub" "data.txt")))
       = "notes" :: ds.
Proof.
  apply (scanner_paths fs_notes "/tmp/myfs_mount/notes/sub" "data.txt").
  - intros name children Hl. vm_compute in Hl. inversion Hl; subst.
    vm_compute. reflexivity.
  - vm_compute. auto.
Defined.

Example candidates_notes :
  candidates fs_notes
  = [("/tmp/myfs_mount/notes", "report.txt");
     ("/tmp/myfs_mount/notes/sub", "data.txt")].
Proof. reflexivity. Qed.

(** The nested loops of [scan_and_sync] visit exactly [candidates], in
    order. *)
Lemma for_each_app {A} (l1 l2 : list A) (body : A -> M unit) w :
  for_each (l1 ++ l2) body w = (for_each l1 body ;; for_each l2 body) w.
Proof.
  revert w. induction l1 as [| a l1 IH]; intros w; [done |].
  cbn [app for_each]. unfold bind.
  destruct (body a w) as [[[] | e] w1]; [| done].
  rewrite IH. reflexivity.
Qed.

Lemma for_each_map {A B} (f : A -> B) (l : list A) (body : B -> M unit) w :
  for_each (map f l) body w = for_each l (fun a => body (f a)) w.
Proof.
  revert w. induction l as [| a l IH]; intros w; [done |].
  cbn [map for_each]. unfold bind.
  destruct (body (f a) w) as [[[] | e] w1]; [apply IH | done].
Qed.

Lemma scan_and_sync_candidates fs w :
  path_exists fs (Path.join MOUNT_DIR "notes") = true ->
  scan_and_sync fs w
  = for_each (candidates fs) (fun '(root, fname) => reconcile fs root fname) w.
Proof.
  intros He. unfold scan_and_sync, candidates. rewrite He. cbn [negb].
  generalize (os_walk fs (Path.join MOUNT_DIR "notes")) as dirs.
  intros dirs. revert w.
  induction dirs as [| [root files] dirs IH]; intros w; [done |].
  cbn [for_each List.flat_map]. rewrite for_each_app.
  unfold bind. rewrite for_each_map.
  destruct (for_each files _ w) as [[[] | e] w1]; [apply IH | done].
Qed.

(** A new session looks at every file again and updates the objects the
    first one created, under their ids. *)
Example restart_updates :
  let w1 := snd (main [fs_notes] world0) in
  let w2 := snd (main [fs_notes] w1) in
  out w2 = [Starting; LogUpload "report.txt"; LogUpload "data.txt"; Stopped;
            Starting; LogUpdate "report.txt"; LogUpdate "data.txt"; Stopped]
  /\ map rid (store w2) = map rid (store w1)
  /\ length (store w2) = 4.
Proof. cbv zeta. repeat split; vm_compute; reflexivity. Qed.

(** ** Lifting a relation from the service calls to the daemon *)

Section Lifting.

Variable P : world -> world -> Prop.
Hypothesis P_refl : forall w, P w w.
Hypothesis P_trans : forall w1 w2 w3, P w1 w2 -> P w2 w3 -> P w1 w3.

Section FromCalls.

Hypothesis P_list : forall c q, preserves P (files_list c q).
Hypothesis P_create :
  forall c name parent folder media,
    preserves P (files_create c name parent folder media).
Hypothesis P_update : forall file_id media, preserves P (files_update file_id media).
Hypothesis P_print : forall l, preserves P (print l).

Lemma lift_walk_parts parts parent : preserves P (walk_parts parts parent).
Proof.
  revert parent. induction parts as [| p parts IH]; intros parent; cbn [walk_parts].
  - by apply preserves_ret.
  - apply preserves_bind; [done | |].
    { apply preserves_bind; [done | apply P_list |].
      intros files. by apply preserves_ret. }
    intros found. apply preserves_bind; [done | | intros i; apply IH].
    destruct found as [i |]; [destruct (Path.is_empty i) |];
      first [apply P_create | by apply preserves_ret].
Qed.

Lemma lift_ensure_drive_path rel_dir : preserves P (ensure_drive_path rel_dir).
Proof.
  unfold ensure_drive_path. destruct (_ || _).
  - by apply preserves_ret.
  - apply lift_walk_parts.
Qed.

Lemma lift_upload_or_update fs local parent name :
  preserves P (upload_or_update fs local parent name).
Proof.
  unfold upload_or_update. apply preserves_try; [done | | apply P_print].
  apply preserves_bind; [done | |].
  { unfold media_file_upload. destruct (bool_decide _).
    - by apply preserves_raise.
    - by apply preserves_ret. }
  intros media. apply preserves_bind; [done | |].
  { apply preserves_bind; [done | apply P_list |].
    intros files. by apply preserves_ret. }
  intros [e |].
  - apply preserves_bind; [done | apply P_update | intros _; apply P_print].
  - apply preserves_bind; [done | apply P_create | intros _; apply P_print].
Qed.

End FromCalls.

Section FromSteps.

Hypothesis P_resolve : forall rel_dir, preserves P (ensure_drive_path rel_dir).
Hypothesis P_upload :
  forall fs local parent name, preserves P (upload_or_update fs local parent name).
Hypothesis P_add : forall p, preserves P (add_uploaded p).

Lemma lift_reconcile fs root fname : preserves P (reconcile fs root fname).
Proof.
  unfold reconcile.
  apply preserves_bind; [done | by apply preserves_in_uploaded_set |].
  intros [|]; [by apply preserves_ret |].
  apply preserves_bind; [done | apply P_resolve |].
  intros parent. apply preserves_bind; [done | apply P_upload |].
  intros _. apply P_add.
Qed.

Lemma lift_daemon_loop cycles : preserves P (daemon_loop cycles).
Proof.
  apply preserves_daemon_loop; [done | done |].
  intros fs root fname. apply lift_reconcile.
Qed.

Hypothesis P_print' : forall l, preserves P (print l).
Hypothesis P_new : preserves P new_uploaded_set.

Lemma lift_main cycles : preserves P (main cycles).
Proof.
  unfold main. apply preserves_bind; [done | apply P_print' |].
  intros _. apply preserves_bind; [done | apply P_new |].
  intros _. apply preserves_try; [done | apply lift_daemon_loop | apply P_print'].
Qed.

End FromSteps.

End Lifting.

(** ** The remote store loses nothing *)




Lemma Forall2_kept_trans s1 s2 s3 :
  Forall2 kept s1 s2 -> Forall2 kept s2 s3 -> Forall2 kept s1 s3.
Proof.
  intros H12. revert s3. induction H12 as [| o1 o2 s1 s2 Ho _ IH]; intros s3 H23.
  - by inversion H23.
  - inversion H23 as [| ? o3 ? s3' Ho' H23']; subst.
    constructor; [by eapply kept_trans | by apply IH].
Qed.

Lemma store_kept_same w w' : store w' = store w -> store_kept w w'.
Proof.
  intros H. exists (store w), []. rewrite H, app_nil_r.
  split; [done | apply Forall2_kept_refl].
Qed.

Lemma store_kept_refl w : store_kept w w.
Proof. by apply store_kept_same. Qed.

Lemma store_kept_trans w1 w2 w3 :
  store_kept w1 w2 -> store_kept w2 w3 -> store_kept w1 w3.
Proof.
  intros (s1 & a1 & H1 & F1) (s2 & a2 & H2 & F2).
  rewrite H1 in F2. apply Forall2_app_inv_l in F2 as (s2a & s2b & Fa & Fb & ->).
  exists s2a, (s2b ++ a2). split; [by rewrite H2, app_assoc |].
  by eapply Forall2_kept_trans.
Qed.

Lemma set_media_kept file_id media now s :
  Forall2 kept s (map (set_media file_id media now) s).
Proof.
  induction s as [| o s IH]; cbn; constructor; [| exact IH].
  unfold set_media. destruct (String.eqb (rid o) file_id);
    [by repeat split | apply kept_refl].
Qed.

Lemma store_kept_files_list c q : preserves store_kept (files_list c q).
Proof.
  intros w. apply store_kept_same. unfold files_list, bind, request.
  by destruct (next_fails w).
Qed.

Lemma store_kept_files_create c name parent folder media :
  preserves store_kept (files_create c name parent folder media).
Proof.
  intros w. destruct (next_fails w) eqn:Hf.
  - rewrite files_create_fail by done. by apply store_kept_same.
  - rewrite files_create_ok by done. eexists (store w), _.
    split; [reflexivity | apply Forall2_kept_refl].
Qed.

Lemma store_kept_files_update file_id media :
  preserves store_kept (files_update file_id media).
Proof.
  intros w. destruct (next_fails w) eqn:Hf.
  - rewrite files_update_fail by done. by apply store_kept_same.
  - rewrite files_update_ok by done. eexists _, [].
    split; [cbn; by rewrite app_nil_r | apply set_media_kept].
Qed.

Lemma store_kept_print l : preserves store_kept (print l).
Proof. intros w. by apply store_kept_same. Qed.

Lemma store_kept_add p : preserves store_kept (add_uploaded p).
Proof. intros w. by apply store_kept_same. Qed.

Lemma store_kept_new : preserves store_kept new_uploaded_set.
Proof. intros w. by apply store_kept_same. Qed.

Lemma store_kept_ensure_drive_path rel_dir :
  preserves store_kept (ensure_drive_path rel_dir).
Proof.
  apply (lift_ensure_drive_path store_kept store_kept_refl store_kept_trans
           store_kept_files_list store_kept_files_create).
Qed.

Lemma store_kept_upload_or_update fs local parent name :
  preserves store_kept (upload_or_update fs local parent name).
Proof.
  apply (lift_upload_or_update store_kept store_kept_refl store_kept_trans
           store_kept_files_list store_kept_files_create
           store_kept_files_update store_kept_print).
Qed.

Lemma store_kept_scan_and_sync fs : preserves store_kept (scan_and_sync fs).
Proof.
  apply preserves_scan_and_sync; [apply store_kept_refl | apply store_kept_trans |].
  intros root fname.
  apply (lift_reconcile store_kept store_kept_refl store_kept_trans
           store_kept_ensure_drive_path store_kept_upload_or_update store_kept_add).
Qed.

(** The steps of a session keep the remote objects. *)
Lemma session_step_kept w w' : session_step w w' -> store_kept w w'.
Proof.
  destruct 1.
  - apply store_kept_ensure_drive_path.
  - apply store_kept_upload_or_update.
  - apply store_kept_add.
  - apply store_kept_scan_and_sync.
Qed.

Lemma later_kept w w' : rtc session_step w w' -> store_kept w w'.
Proof.
  induction 1 as [| w1 w2 w3 Hstep _ IH]; [apply store_kept_refl |].
  eapply store_kept_trans; [by apply session_step_kept | exact IH].
Qed.

(** C3, as the code has it: for a directory whose segments hold no quote and
    no backslash, when a resolution has returned a folder id it has sent at
    most one folder creation for each segment, and a resolution at any
    later point of the session (after further resolutions, uploads and
    whole cycles) that meets no failing request returns the same id and
    creates nothing; it is not answered from a cache: it sends one lookup
    for each segment again. *)
Theorem resolve_twice (rel_dir : string) (w : world) (id : string) (w1 w2 : world) :
  ids_plain (store w) ->
  Forall (fun seg => plain seg = true) (segments rel_dir) ->
  ensure_drive_path rel_dir w = (Ok id, w1) ->
  rtc session_step w1 w2 ->
  faults w2 = [] ->
  (exists cs1,
     calls w1 = calls w ++ cs1
     /\ length (List.filter is_create_folder cs1) <= length (segments rel_dir))
  /\ exists cs2,
       ensure_drive_path rel_dir w2 = (Ok id, with_calls cs2 w2)
       /\ Forall (fun c => is_lookup c = true) cs2
       /\ length cs2 = length (segments rel_dir).
Proof.
  rewrite !ensure_drive_path_segments.
  intros Hids Hsegs Hrun (s2 & ext & Hst & Hk)%later_kept Hf. split.
  - destruct (walk_parts_creates (segments rel_dir) DRIVE_FOLDER_ID w)
      as (cs1 & Hcs & Hlen).
    rewrite Hrun in Hcs. by exists cs1.
  - destruct (walk_parts_again _ _ _ _ _ Hsegs DRIVE_FOLDER_ID_plain Hids Hrun)
      as [_ Hagain].
    by apply (Hagain w2 s2 ext).
Qed.

Lemma resolve_twice_witness :
  let w1 := snd (ensure_drive_path "notes/sub" world0) in
  let w2 := snd (upload_or_update fs_notes "/tmp/myfs_mount/notes/sub/data.txt"
                   "id_" "data.txt" w1) in
  length (store w2) = 3
  /\ exists cs2,
       ensure_drive_path "notes/sub" w2 = (Ok "id_", with_calls cs2 w2)
       /\ Forall (fun c => is_lookup c = true) cs2
       /\ length cs2 = 2.
Proof.
  cbv zeta. split; [vm_compute; reflexivity |].
  refine (proj2 (resolve_twice "notes/sub" world0 "id_"
                   (snd (ensure_drive_path "notes/sub" world0)) _ _ _ _ _ _)).
  - constructor.
  - repeat constructor.
  - vm_compute. reflexivity.
  - apply rtc_once, step_upload.
  - vm_compute. reflexivity.
Defined.

(** C3, where the specification does not hold: the second resolution of [notes] is no
    cache hit, it sends the lookup of [notes] again. *)
Lemma second_resolution_looks_up_again :
  let r1 := ensure_drive_path "notes" world0 in
  let r2 := ensure_drive_path "notes" (snd r1) in
  fst r1 = Ok "id" /\ fst r2 = Ok "id"
  /\ calls (snd r1) = [ListFolders DRIVE_FOLDER_ID "notes";
                       CreateFolder DRIVE_FOLDER_ID "notes"]
  /\ calls (snd r2) = calls (snd r1) ++ [ListFolders DRIVE_FOLDER_ID "notes"].
Proof. cbv zeta. repeat split; vm_compute; reflexivity. Qed.

(** X2. The daemon never deletes, renames, moves, trashes or changes the
    kind of a remote object: after any run of [main] the store begins with the
    objects it had, each with the id, name, parents, kind and trashed flag
    it had, and what the run created comes after them. *)
Theorem main_keeps_remote_objects (cycles : list localfs) (w : world) :
  store_kept w (snd (main cycles w)).
Proof.
  apply lift_main.
  - apply store_kept_refl.
  - apply store_kept_trans.
  - apply store_kept_ensure_drive_path.
  - apply store_kept_upload_or_update.
  - apply store_kept_add.
  - apply store_kept_print.
  - apply store_kept_new.
Qed.

(** ** What a failing step leaves behind *)

Lemma silent_refl w : silent w w.
Proof. done. Qed.

Lemma silent_trans w1 w2 w3 : silent w1 w2 -> silent w2 w3 -> silent w1 w3.
Proof. unfold silent. congruence. Qed.

Lemma silent_files_list c q : preserves silent (files_list c q).
Proof.
  intros w. unfold silent, files_list, bind, request. by destruct (next_fails w).
Qed.

Lemma silent_files_create c name parent folder media :
  preserves silent (files_create c name parent folder media).
Proof.
  intros w. unfold silent, files_create, bind, request. by destruct (next_fails w).
Qed.

Lemma silent_ensure_drive_path rel_dir : preserves silent (ensure_drive_path rel_dir).
Proof.
  apply (lift_ensure_drive_path silent silent_refl silent_trans
           silent_files_list silent_files_create).
Qed.

Lemma raises_only_ret {A} e0 (a : A) : raises_only e0 (ret a).
Proof. by intros w e w' H. Qed.

Lemma raises_only_bind {A B} e0 (m : M A) (k : A -> M B) :
  raises_only e0 m -> (forall a, raises_only e0 (k a)) -> raises_only e0 (bind m k).
Proof.
  intros Hm Hk w e w' H.
  apply bind_inv in H as [(a & w1 & _ & H) | (e' & H & Heq)].
  - by eapply Hk.
  - inversion Heq; subst. by eapply Hm.
Qed.

Lemma raises_only_request c : raises_only HttpError (request c).
Proof.
  intros w e w' H. unfold request in H.
  destruct (next_fails w); by inversion H.
Qed.

Lemma raises_only_files_list c q : raises_only HttpError (files_list c q).
Proof.
  unfold files_list. apply raises_only_bind; [apply raises_only_request |].
  by intros _ w e w' H.
Qed.

Lemma raises_only_create_folder parent name :
  raises_only HttpError (create_folder parent name).
Proof.
  unfold create_folder, files_create.
  apply raises_only_bind; [apply raises_only_request |].
  intros _. apply raises_only_bind; [by intros w e w' H |].
  intros s. apply raises_only_bind; [by intros w e w' H |].
  intros _. apply raises_only_ret.
Qed.

Lemma raises_only_walk_parts parts parent :
  raises_only HttpError (walk_parts parts parent).
Proof.
  revert parent. induction parts as [| p parts IH]; intros parent; cbn [walk_parts].
  - apply raises_only_ret.
  - apply raises_only_bind.
    { unfold find_child_folder.
      apply raises_only_bind; [apply raises_only_files_list |].
      intros files. apply raises_only_ret. }
    intros found. apply raises_only_bind; [| intros i; apply IH].
    destruct found as [i |]; [destruct (Path.is_empty i) |];
      first [apply raises_only_create_folder | apply raises_only_ret].
Qed.

Lemma raises_only_ensure_drive_path rel_dir :
  raises_only HttpError (ensure_drive_path rel_dir).
Proof.
  unfold ensure_drive_path. destruct (_ || _).
  - apply raises_only_ret.
  - apply raises_only_walk_parts.
Qed.

(** X1. A reconcile step that raises has recorded nothing, printed nothing
    and sent no upload; it raises [HttpError], out of the resolution of
    the folder, or [OSError], for a local file that cannot be opened. *)
Theorem reconcile_raise_leaves_no_trace (fs : localfs) (root fname : string)
    (w : world) (e : exn) (w' : world) :
  reconcile fs root fname w = (Raise e, w') ->
  uploaded_set w' = uploaded_set w
  /\ out w' = out w
  /\ (forall l, uploads_of l (calls w') = uploads_of l (calls w))
  /\ (e = HttpError \/ (e = OSError /\ Path.join root fname ∈ vanished fs)).
Proof.
  intros Hrun.
  destruct (decide (rel_of (Path.join root fname) ∈ uploaded_set w)) as [Hin | Hin].
  { by rewrite reconcile_skip in Hrun. }
  rewrite reconcile_fresh in Hrun by done.
  pose proof (quiet_ensure_drive_path
                (Path.dirname (rel_of (Path.join root fname))) w) as [Hs Hc].
  pose proof (silent_ensure_drive_path
                (Path.dirname (rel_of (Path.join root fname))) w) as Ho.
  apply bind_inv in Hrun as [(parent & w1 & Hres & Hrun) | (e' & Hres & Heq)];
    [| inversion Heq; subst e'].
  - rewrite Hres in Hs, Hc, Ho. cbn [snd] in *.
    destruct (decide (Path.join root fname ∈ vanished fs)) as [Hv | Hv].
    + unfold bind in Hrun. rewrite upload_or_update_vanished in Hrun by done.
      inversion Hrun; subst. split; [done |]. split; [done |].
      split; [done | by right].
    + destruct (upload_or_update_readable fs _ parent fname w1 Hv) as (w2 & Hup & _).
      unfold bind in Hrun. by rewrite Hup in Hrun.
  - rewrite Hres in Hs, Hc, Ho. cbn [snd] in *.
    apply raises_only_ensure_drive_path in Hres.
    split; [done |]. split; [done |]. split; [done | by left].
Qed.

Lemma reconcile_raise_leaves_no_trace_witness :
  uploaded_set (snd (reconcile fs_vanished "/tmp/myfs_mount/notes" "report.txt" world0))
  = uploaded_set world0.
Proof.
  refine (proj1 (reconcile_raise_leaves_no_trace fs_vanished "/tmp/myfs_mount/notes"
                   "report.txt" world0 OSError _ _)).
  vm_compute. reflexivity.
Defined.

(** ** Runs without failures *)

Lemma runs_clean_ret {A} (a : A) : runs_clean (ret a).
Proof. intros w Hf. by exists a, w. Qed.

Lemma runs_clean_bind {A B} (m : M A) (k : A -> M B) :
  runs_clean m -> (forall a, runs_clean (k a)) -> runs_clean (bind m k).
Proof.
  intros Hm Hk w Hf. destruct (Hm w Hf) as (a & w1 & Hrun & Hf1).
  unfold bind. rewrite Hrun. by apply Hk.
Qed.

Lemma runs_clean_try {A} (m : M A) e (h : M A) :
  runs_clean m -> runs_clean (try_except m e h).
Proof.
  intros Hm w Hf. destruct (Hm w Hf) as (a & w1 & Hrun & Hf1).
  unfold try_except. rewrite Hrun. by exists a, w1.
Qed.

Lemma runs_clean_for_each {A} (l : list A) (body : A -> M unit) :
  (forall a, In a l -> runs_clean (body a)) -> runs_clean (for_each l body).
Proof.
  induction l as [| a l IH]; intros Hb; cbn [for_each].
  - apply runs_clean_ret.
  - apply runs_clean_bind; [apply Hb; by left |].
    intros _. apply IH. intros b Hin. apply Hb. by right.
Qed.

Lemma runs_clean_request c : runs_clean (request c).
Proof.
  intros w Hf. unfold request. rewrite (no_faults_next w Hf).
  eexists tt, _. split; [reflexivity |]. cbn. by rewrite Hf.
Qed.

Lemma runs_clean_print l : runs_clean (print l).
Proof. intros w Hf. by eexists tt, _. Qed.

Lemma runs_clean_files_list c q : runs_clean (files_list c q).
Proof.
  unfold files_list. apply runs_clean_bind; [apply runs_clean_request |].
  intros _ w Hf. by eexists _, w.
Qed.

Lemma runs_clean_files_create c name parent folder media :
  runs_clean (files_create c name parent folder media).
Proof.
  unfold files_create. apply runs_clean_bind; [apply runs_clean_request |].
  intros _. apply runs_clean_bind; [by intros w Hf; eexists _, w |].
  intros s. apply runs_clean_bind; [by intros w Hf; eexists tt, _ |].
  intros _. apply runs_clean_ret.
Qed.

Lemma runs_clean_files_update file_id media :
  runs_clean (files_update file_id media).
Proof.
  unfold files_update. apply runs_clean_bind; [apply runs_clean_request |].
  intros _. apply runs_clean_bind; [by intros w Hf; eexists _, w |].
  intros s. by intros w Hf; eexists tt, _.
Qed.

Lemma runs_clean_walk_parts parts parent : runs_clean (walk_parts parts parent).
Proof.
  revert parent. induction parts as [| p parts IH]; intros parent; cbn [walk_parts].
  - apply runs_clean_ret.
  - apply runs_clean_bind.
    { unfold find_child_folder.
      apply runs_clean_bind; [apply runs_clean_files_list |].
      intros files. apply runs_clean_ret. }
    intros found. apply runs_clean_bind; [| intros i; apply IH].
    destruct found as [i |]; [destruct (Path.is_empty i) |];
      first [apply runs_clean_files_create | apply runs_clean_ret].
Qed.

Lemma runs_clean_ensure_drive_path rel_dir : runs_clean (ensure_drive_path rel_dir).
Proof.
  unfold ensure_drive_path. destruct (_ || _).
  - apply runs_clean_ret.
  - apply runs_clean_walk_parts.
Qed.

Lemma runs_clean_upload_or_update fs local parent name :
  local ∉ vanished fs -> runs_clean (upload_or_update fs local parent name).
Proof.
  intros Hv. unfold upload_or_update. apply runs_clean_try.
  apply runs_clean_bind.
  { unfold media_file_upload. rewrite bool_decide_eq_false_2 by done.
    apply runs_clean_ret. }
  intros media. apply runs_clean_bind.
  { unfold find_drive_file.
    apply runs_clean_bind; [apply runs_clean_files_list |].
    intros files. apply runs_clean_ret. }
  intros [e |].
  - apply runs_clean_bind; [apply runs_clean_files_update |].
    intros _. apply runs_clean_print.
  - apply runs_clean_bind; [apply runs_clean_files_create |].
    intros _. apply runs_clean_print.
Qed.

Lemma runs_clean_reconcile fs root fname :
  vanished fs = [] -> runs_clean (reconcile fs root fname).
Proof.
  intros Hv. unfold reconcile.
  apply runs_clean_bind; [by intros w Hf; eexists _, w |].
  intros [|]; [apply runs_clean_ret |].
  apply runs_clean_bind; [apply runs_clean_ensure_drive_path |].
  intros parent. apply runs_clean_bind.
  { apply runs_clean_upload_or_update. rewrite Hv. apply not_elem_of_nil. }
  intros _. by intros w Hf; eexists tt, _.
Qed.

Lemma runs_clean_scan_and_sync fs :
  vanished fs = [] -> runs_clean (scan_and_sync fs).
Proof.
  intros Hv. unfold scan_and_sync. destruct (negb _); [apply runs_clean_ret |].
  apply runs_clean_for_each. intros [root files] _.
  apply runs_clean_for_each. intros fname _. by apply runs_clean_reconcile.
Qed.

(** X3. When no request fails and every file can be opened, the daemon
    survives every cycle: [main] runs them all, ends only with the stop
    signal, and the last thing it prints is [Stopped]. *)
Theorem main_runs_all_cycles (cycles : list localfs) (w : world) :
  faults w = [] ->
  Forall (fun fs => vanished fs = []) cycles ->
  exists w',
    main cycles w = (Ok tt, w')
    /\ faults w' = []
    /\ last (out w') = Some Stopped.
Proof.
  intros Hf Hcycles. rewrite main_starts_empty.
  set (w0 := {| store := store w; faults := faults w; calls := calls w;
                out := out w ++ [Starting]; uploaded_set := ∅;
                odd_reply := odd_reply w |}).
  assert (faults w0 = []) as Hf0 by done.
  clearbody w0. clear Hf. revert w0 Hf0.
  induction Hcycles as [| fs cycles Hv _ IH]; intros w0 Hf0.
  - exists (after_print Stopped w0). cbn. split; [done |]. split; [done |].
    by rewrite last_snoc.
  - destruct (runs_clean_scan_and_sync fs Hv w0 Hf0) as ([] & w1 & Hrun & Hf1).
    destruct (IH w1 Hf1) as (w' & Hmain & Hf' & Hlast).
    exists w'. split; [| done].
    unfold try_except in *. cbn [daemon_loop]. unfold bind at 1. by rewrite Hrun.
Qed.

Lemma main_runs_all_cycles_witness :
  exists w',
    main [fs_notes; fs_notes] world0 = (Ok tt, w')
    /\ faults w' = []
    /\ last (out w') = Some Stopped.
Proof.
  apply main_runs_all_cycles; [reflexivity |].
  repeat constructor.
Defined.

(** ** A completed cycle *)

Lemma scan_and_sync_no_notes_again fs w :
  path_exists fs (Path.join MOUNT_DIR "notes") = false ->
  scan_and_sync fs w = (Ok tt, w).
Proof. intros He. unfold scan_and_sync. by rewrite He. Qed.

Lemma candidates_same_tree fs fs2 :
  root_entries fs2 = root_entries fs -> candidates fs2 = candidates fs.
Proof.
  intros H. unfold candidates, os_walk, lookup_path. by rewrite H.
Qed.

Lemma path_exists_same_tree fs fs2 p :
  root_entries fs2 = root_entries fs -> path_exists fs2 p = path_exists fs p.
Proof.
  intros H. unfold path_exists, lookup_path. by rewrite H.
Qed.

Lemma candidates_no_notes fs :
  path_exists fs (Path.join MOUNT_DIR "notes") = false -> candidates fs = [].
Proof.
  unfold path_exists, candidates, os_walk.
  by destruct (lookup_path fs (Path.join MOUNT_DIR "notes")).
Qed.

Lemma for_each_reconcile_recorded fs l w w' :
  for_each l (fun '(root, fname) => reconcile fs root fname) w = (Ok tt, w') ->
  forall root fname,
    In (root, fname) l -> rel_of (Path.join root fname) ∈ uploaded_set w'.
Proof.
  revert w. induction l as [| [r f] l IH]; intros w Hrun root fname Hin; [done |].
  cbn [for_each] in Hrun.
  apply bind_inv in Hrun as [([] & w1 & Hstep & Hrest) | (e & _ & ?)]; [| done].
  destruct Hin as [Heq | Hin]; [| by eapply IH].
  inversion Heq; subst.
  pose proof (reconcile_ok_recorded _ _ _ _ _ Hstep) as Hrec.
  pose proof (preserves_for_each grows grows_refl grows_trans l
                (fun '(root, fname) => reconcile fs root fname)) as Hg.
  assert (grows w1 (snd (for_each l (fun '(root, fname) => reconcile fs root fname) w1)))
    as Hgrow.
  { apply Hg. intros [r f]. apply grows_reconcile. }
  rewrite Hrest in Hgrow. by apply Hgrow.
Qed.

Lemma for_each_all_skipped fs l w :
  (forall root fname,
     In (root, fname) l -> rel_of (Path.join root fname) ∈ uploaded_set w) ->
  for_each l (fun '(root, fname) => reconcile fs root fname) w = (Ok tt, w).
Proof.
  induction l as [| [r f] l IH]; intros Hall; [done |].
  cbn [for_each]. unfold bind.
  rewrite reconcile_skip by (apply Hall; by left).
  apply IH. intros root fname Hin. apply Hall. by right.
Qed.

(** X4. When a cycle has completed, every file below [MOUNT_DIR/notes] is in
    the set of processed paths, and a further cycle over the same tree
    (whatever has happened to the contents of the files) sends no request
    and changes nothing. *)
Theorem completed_cycle (fs : localfs) (w w' : world) :
  scan_and_sync fs w = (Ok tt, w') ->
  (forall root fname,
     In (root, fname) (candidates fs) ->
     rel_of (Path.join root fname) ∈ uploaded_set w')
  /\ forall fs2,
       root_entries fs2 = root_entries fs -> scan_and_sync fs2 w' = (Ok tt, w').
Proof.
  intros Hrun.
  destruct (path_exists fs (Path.join MOUNT_DIR "notes")) eqn:He.
  - rewrite scan_and_sync_candidates in Hrun by done.
    pose proof (for_each_reconcile_recorded _ _ _ _ Hrun) as Hrec.
    split; [exact Hrec |]. intros fs2 Htree.
    rewrite scan_and_sync_candidates
      by by rewrite (path_exists_same_tree fs fs2).
    rewrite (candidates_same_tree fs fs2 Htree).
    by apply for_each_all_skipped.
  - rewrite candidates_no_notes by done. split; [done |].
    intros fs2 Htree. apply scan_and_sync_no_notes_again.
    by rewrite (path_exists_same_tree fs fs2).
Qed.

Lemma completed_cycle_witness :
  scan_and_sync fs_vanished (snd (scan_and_sync fs_notes world0))
  = (Ok tt, snd (scan_and_sync fs_notes world0)).
Proof.
  refine (proj2 (completed_cycle fs_notes world0 _ _) fs_vanished _).
  - vm_compute. reflexivity.
  - reflexivity.
Defined.

(** ** The requests of a step *)

Lemma may_follow_weaken prev c :
  may_follow None c = true -> may_follow prev c = true.
Proof. by destruct c, prev as [[] |]. Qed.

Lemma disciplined_weaken prev cs :
  disciplined None cs = true -> disciplined prev cs = true.
Proof.
  destruct cs as [| c cs]; [done |]. cbn.
  intros [Hc Hcs]%andb_true_iff. by rewrite (may_follow_weaken prev c Hc).
Qed.

Lemma disciplined_app prev cs1 cs2 :
  disciplined prev cs1 = true -> disciplined None cs2 = true ->
  disciplined prev (cs1 ++ cs2) = true.
Proof.
  revert prev. induction cs1 as [| c cs1 IH]; intros prev H1 H2; cbn.
  - by apply disciplined_weaken.
  - cbn in H1. apply andb_true_iff in H1 as [Hc H1]. rewrite Hc. by apply IH.
Qed.

Lemma looks_before_refl w : looks_before w w.
Proof. exists []. by rewrite app_nil_r. Qed.

Lemma looks_before_trans w1 w2 w3 :
  looks_before w1 w2 -> looks_before w2 w3 -> looks_before w1 w3.
Proof.
  intros (cs1 & H1 & D1) (cs2 & H2 & D2). exists (cs1 ++ cs2).
  split; [by rewrite H2, H1, app_assoc | by apply disciplined_app].
Qed.

Lemma looks_before_same w w' : calls w' = calls w -> looks_before w w'.
Proof. intros H. exists []. by rewrite app_nil_r. Qed.

(** The walk sends at most two requests for a segment, and creates a
    folder only just after its lookup. *)
Lemma walk_parts_requests parts :
  forall parent w,
    exists cs,
      calls (snd (walk_parts parts parent w)) = calls w ++ cs
      /\ length cs <= 2 * length parts
      /\ disciplined None cs = true.
Proof.
  induction parts as [| p parts IH]; intros parent w.
  - exists []. cbn. by rewrite app_nil_r.
  - cbn [walk_parts]. unfold bind at 1.
    destruct (next_fails w) eqn:Hnf.
    { rewrite find_child_folder_fail by done.
      exists [ListFolders parent p]. cbn. split; [done |]. split; [lia | done]. }
    rewrite find_child_folder_reply by done.
    set (w1 := after_request (ListFolders parent p) w).
    assert (forall i, exists cs,
              calls (snd (walk_parts parts i w1)) = calls w ++ cs
              /\ length cs <= 2 * length (p :: parts)
              /\ disciplined None cs = true)
      as Hfound.
    { intros i. destruct (IH i w1) as (cs & Hcs & Hlen & Hd).
      exists (ListFolders parent p :: cs). rewrite Hcs. cbn [calls w1 after_request].
      rewrite <- app_assoc. split; [done |]. split; [cbn; lia |].
      cbn. by apply disciplined_weaken. }
    assert (exists cs,
              calls (snd ((parent' <- create_folder parent p ;;
                           walk_parts parts parent') w1)) = calls w ++ cs
              /\ length cs <= 2 * length (p :: parts)
              /\ disciplined None cs = true)
      as Hcreate.
    { unfold bind at 1. unfold create_folder.
      destruct (next_fails w1) eqn:Hnf1.
      - rewrite files_create_fail by done.
        exists [ListFolders parent p; CreateFolder parent p]. cbn.
        rewrite <- app_assoc, !String.eqb_refl. split; [done |]. split; [lia | done].
      - rewrite files_create_ok by done.
        destruct (IH (new_id (store w1))
                    (after_create (CreateFolder parent p) p parent true "" w1))
          as (cs & Hcs & Hlen & Hd).
        exists (ListFolders parent p :: CreateFolder parent p :: cs).
        rewrite Hcs. cbn [calls w1 after_request after_create].
        rewrite <- !app_assoc. split; [done |]. split; [cbn; lia |].
        cbn. rewrite !String.eqb_refl. by apply disciplined_weaken. }
    unfold bind at 1.
    destruct (head _) as [f |]; cbn [fmap option_fmap option_map];
      [destruct (Path.is_empty (rid f)) |]; [exact Hcreate | apply Hfound | exact Hcreate].
Qed.

(** [upload_or_update] sends at most two requests, the upload only just
    after the lookup of the file. *)
Lemma upload_or_update_requests fs local parent name w :
  exists cs,
    calls (snd (upload_or_update fs local parent name w)) = calls w ++ cs
    /\ length cs <= 2
    /\ disciplined None cs = true.
Proof.
  destruct (decide (local ∈ vanished fs)) as [Hv | Hv].
  { rewrite upload_or_update_vanished by done. exists []. cbn.
    rewrite app_nil_r. split; [done |]. split; [lia | done]. }
  unfold upload_or_update, try_except, media_file_upload.
  rewrite bool_decide_eq_false_2 by done.
  unfold bind at 1. unfold ret at 1. unfold bind at 1.
  destruct (next_fails w) eqn:Hf.
  { rewrite find_drive_file_fail by done.
    exists [ListFiles parent name]. cbn. split; [done |]. split; [lia | done]. }
  rewrite find_drive_file_reply by done.
  destruct (head _) as [e |]; unfold bind at 1;
    destruct (next_fails (after_request (ListFiles parent name) w)) eqn:Hf2.
  - rewrite files_update_fail by done.
    exists [ListFiles parent name; UpdateFile (rid e) local]. cbn.
    rewrite <- app_assoc. split; [done |]. split; [lia | done].
  - rewrite files_update_ok by done.
    exists [ListFiles parent name; UpdateFile (rid e) local]. cbn.
    rewrite <- app_assoc. split; [done |]. split; [lia | done].
  - rewrite files_create_fail by done.
    exists [ListFiles parent name; CreateFile parent name local]. cbn.
    rewrite <- app_assoc, !String.eqb_refl. split; [done |]. split; [lia | done].
  - rewrite files_create_ok by done.
    exists [ListFiles parent name; CreateFile parent name local]. cbn.
    rewrite <- app_assoc, !String.eqb_refl. split; [done |]. split; [lia | done].
Qed.

(** X5. A reconcile step costs at most two requests for each segment of
    the directory of the file (a lookup and, when needed, a creation) and
    two for the file itself; requests are only ever added to the trace. *)
Theorem reconcile_request_bound (fs : localfs) (root fname : string) (w : world) :
  exists cs,
    calls (snd (reconcile fs root fname w)) = calls w ++ cs
    /\ length cs
       <= 2 * length (segments (Path.dirname (rel_of (Path.join root fname)))) + 2.
Proof.
  destruct (decide (rel_of (Path.join root fname) ∈ uploaded_set w)) as [Hin | Hin].
  { rewrite reconcile_skip by done. exists []. cbn. rewrite app_nil_r.
    split; [done | lia]. }
  rewrite reconcile_fresh by done. unfold bind at 1.
  rewrite ensure_drive_path_segments.
  destruct (walk_parts_requests
              (segments (Path.dirname (rel_of (Path.join root fname))))
              DRIVE_FOLDER_ID w) as (cs1 & Hcs1 & Hlen1 & _).
  destruct (walk_parts _ DRIVE_FOLDER_ID w) as [[parent | e] w1]; cbn [snd] in *.
  2: { exists cs1. split; [done | lia]. }
  unfold bind at 1.
  destruct (upload_or_update_requests fs (Path.join root fname) parent fname w1)
    as (cs2 & Hcs2 & Hlen2 & _).
  destruct (upload_or_update fs (Path.join root fname) parent fname w1)
    as [[[] | e] w2]; cbn [snd] in *.
  - exists (cs1 ++ cs2). cbn. rewrite Hcs2, Hcs1, length_app, app_assoc.
    split; [done | lia].
  - exists (cs1 ++ cs2). rewrite Hcs2, Hcs1, length_app, app_assoc.
    split; [done | lia].
Qed.

Lemma looks_before_ensure_drive_path rel_dir :
  preserves looks_before (ensure_drive_path rel_dir).
Proof.
  intros w. rewrite ensure_drive_path_segments.
  destruct (walk_parts_requests (segments rel_dir) DRIVE_FOLDER_ID w)
    as (cs & Hcs & _ & Hd).
  by exists cs.
Qed.

Lemma looks_before_upload_or_update fs local parent name :
  preserves looks_before (upload_or_update fs local parent name).
Proof.
  intros w.
  destruct (upload_or_update_requests fs local parent name w) as (cs & Hcs & _ & Hd).
  by exists cs.
Qed.

(** X6. The daemon looks before it creates: in the requests of any run of
    [main], a folder or file creation comes directly after the lookup of
    the same name under the same parent, and an update directly after the
    lookup of a file. *)
Theorem main_looks_before_creating (cycles : list localfs) (w : world) :
  looks_before w (snd (main cycles w)).
Proof.
  apply lift_main.
  - apply looks_before_refl.
  - apply looks_before_trans.
  - apply looks_before_ensure_drive_path.
  - apply looks_before_upload_or_update.
  - intros p w'. by apply looks_before_same.
  - intros l w'. by apply looks_before_same.
  - intros w'. by apply looks_before_same.
Qed.

(** ** Directories with surplus separators *)

Lemma lstrip_no_start s : Path.startswith_sep (Path.lstrip s) = false.
Proof.
  induction s as [| c s IH]; cbn; [done |].
  destruct (Path.is_sep c) eqn:Hc; [done | by cbn; rewrite Hc].
Qed.

Lemma rstrip_no_start s :
  Path.startswith_sep s = false -> Path.startswith_sep (Path.rstrip s) = false.
Proof.
  destruct s as [| c s]; cbn; [done |]. intros Hc. rewrite Hc. cbn. exact Hc.
Qed.

Lemma rstrip_rstrip s : Path.rstrip (Path.rstrip s) = Path.rstrip s.
Proof.
  induction s as [| c s IH]; cbn; [done |].
  destruct (Path.is_sep c && Path.is_empty (Path.rstrip s)) eqn:Hc; [done |].
  cbn. by rewrite IH, Hc.
Qed.

Lemma strip_strip s : Path.strip (Path.strip s) = Path.strip s.
Proof.
  unfold Path.strip.
  rewrite (lstrip_id (Path.rstrip (Path.lstrip s)))
    by apply rstrip_no_start, lstrip_no_start.
  apply rstrip_rstrip.
Qed.

(** X7. Leading and trailing separators of a directory do not matter:
    when what is left after stripping them is neither empty nor [.],
    [ensure_drive_path] behaves on the directory as on the stripped one. *)
Theorem ensure_drive_path_strip (rel_dir : string) (w : world) :
  Path.strip rel_dir <> "" -> Path.strip rel_dir <> "." ->
  ensure_drive_path rel_dir w = ensure_drive_path (Path.strip rel_dir) w.
Proof.
  intros H1 H2. unfold ensure_drive_path.
  assert (String.eqb rel_dir "" = false) as ->.
  { apply String.eqb_neq. by intros ->. }
  assert (String.eqb rel_dir "." = false) as ->.
  { apply String.eqb_neq. by intros ->. }
  apply String.eqb_neq in H1, H2. rewrite H1, H2. cbn [orb].
  by rewrite strip_strip.
Qed.

Lemma ensure_drive_path_strip_witness :
  ensure_drive_path "/notes/sub/" world0 = ensure_drive_path "notes/sub" world0.
Proof.
  apply (ensure_drive_path_strip "/notes/sub/" world0); vm_compute; discriminate.
Defined.

(** X8. A directory made of separators only is not taken for the root:
    stripping leaves the empty string, whose split is one empty segment,
    so [ensure_drive_path] looks up (and, when absent, creates) a folder
    with the empty name under [DRIVE_FOLDER_ID]. *)
Theorem ensure_drive_path_separators_only (rel_dir : string) (w : world) :
  rel_dir <> "" -> Path.strip rel_dir = "" ->
  ensure_drive_path rel_dir w = walk_parts [""] DRIVE_FOLDER_ID w
  /\ exists cs,
       calls (snd (ensure_drive_path rel_dir w))
       = calls w ++ ListFolders DRIVE_FOLDER_ID "" :: cs.
Proof.
  intros Hne Hstrip.
  assert (ensure_drive_path rel_dir w = walk_parts [""] DRIVE_FOLDER_ID w) as Heq.
  { unfold ensure_drive_path. apply String.eqb_neq in Hne. rewrite Hne.
    destruct (String.eqb_spec rel_dir ".") as [-> | _]; [done |].
    cbn [orb]. by rewrite Hstrip. }
  split; [exact Heq |]. rewrite Heq. cbn [walk_parts]. unfold bind at 1.
  destruct (next_fails w) eqn:Hf.
  - rewrite find_child_folder_fail by done. by exists [].
  - rewrite find_child_folder_reply by done.
    set (w1 := after_request (ListFolders DRIVE_FOLDER_ID "") w).
    assert (forall (m : M string),
              (exists cs1, calls (snd (m w1)) = calls w1 ++ cs1) ->
              exists cs, calls (snd ((parent' <- m ;; ret parent') w1))
                         = calls w ++ ListFolders DRIVE_FOLDER_ID "" :: cs) as Hm.
    { intros m [cs1 Hcs1]. exists cs1. unfold bind, ret.
      destruct (m w1) as [[i | e] w2]; cbn [snd] in *;
        rewrite Hcs1; cbn; by rewrite <- app_assoc. }
    apply Hm. destruct (head _) as [f |]; cbn [fmap option_fmap option_map].
    + destruct (Path.is_empty (rid f)).
      * unfold create_folder. destruct (next_fails w1) eqn:Hf1.
        -- rewrite files_create_fail by done. by eexists [_].
        -- rewrite files_create_ok by done. by eexists [_].
      * exists []. cbn. by rewrite app_nil_r.
    + unfold create_folder. destruct (next_fails w1) eqn:Hf1.
      * rewrite files_create_fail by done. by eexists [_].
      * rewrite files_create_ok by done. by eexists [_].
Qed.

Lemma ensure_drive_path_separators_only_witness :
  ensure_drive_path "/" world0 = walk_parts [""] DRIVE_FOLDER_ID world0.
Proof.
  apply (ensure_drive_path_separators_only "/" world0); [done | reflexivity].
Defined.

(** ** Looking up what was uploaded *)

Lemma file_query_set_media parent name file_id media now o :
  file_query parent name (set_media file_id media now o) = file_query parent name o.
Proof. unfold set_media. by destruct (String.eqb (rid o) file_id). Qed.

Lemma filter_set_media parent name file_id media now s :
  List.filter (file_query parent name) (map (set_media file_id media now) s)
  = map (set_media file_id media now) (List.filter (file_query parent name) s).
Proof.
  induction s as [| o s IH]; [done |]. cbn [map List.filter].
  rewrite file_query_set_media. destruct (file_query parent name o); cbn [map];
    by rewrite IH.
Qed.

Lemma file_query_name parent name o :
  file_query parent name o = true -> rname o = name.
Proof.
  unfold file_query. intros [[_ Hn]%andb_true_iff _]%andb_true_iff.
  by apply String.eqb_eq.
Qed.

(** What [upload_or_update] does for plain values when nothing fails. *)
Lemma upload_or_update_no_faults fs local parent name w :
  plain parent = true -> plain name = true ->
  local ∉ vanished fs -> faults w = [] ->
  upload_or_update fs local parent name w
  = (Ok tt,
     match head (List.filter (file_query parent name) (store w)) with
     | None =>
         after_print (LogUpload name)
           (after_create (CreateFile parent name local) name parent false local
              (after_request (ListFiles parent name) w))
     | Some e =>
         after_print (LogUpdate name)
           (after_update (rid e) local (after_request (ListFiles parent name) w))
     end).
Proof.
  intros Hpp Hpn Hr Hf. unfold upload_or_update, try_except, media_file_upload.
  rewrite bool_decide_eq_false_2 by done.
  unfold bind at 1. unfold ret at 1. unfold bind at 1.
  rewrite find_drive_file_ok by (done || by apply no_faults_next).
  assert (next_fails (after_request (ListFiles parent name) w) = false) as Hf2.
  { apply no_faults_next. cbn. by rewrite Hf. }
  destruct (head _) as [e |]; unfold bind at 1.
  - by rewrite files_update_ok.
  - by rewrite files_create_ok.
Qed.

(** X9. Upload, then look up: for a parent id and a file name that hold no
    quote and no backslash, after [upload_or_update] for a local file that
    opens, with no failing request, the lookup of the name under the parent
    finds an object of that name whose content is the local file; an upload
    that found no object leaves exactly one match, an update leaves the
    number of matches as it was. *)
Theorem upload_then_lookup (fs : localfs) (local parent name : string) (w : world) :
  plain parent = true -> plain name = true ->
  local ∉ vanished fs -> faults w = [] ->
  exists w' o,
    upload_or_update fs local parent name w = (Ok tt, w')
    /\ find_drive_file parent name w'
       = (Ok (Some o), after_request (ListFiles parent name) w')
    /\ rname o = name /\ rmedia o = local
    /\ length (List.filter (file_query parent name) (store w'))
       = Nat.max 1 (length (List.filter (file_query parent name) (store w))).
Proof.
  intros Hpp Hpn Hr Hf. rewrite upload_or_update_no_faults by done.
  destruct (List.filter (file_query parent name) (store w)) as [| e rest] eqn:Hq;
    cbn [head].
  - eexists _, _. split; [reflexivity |].
    assert (file_query parent name
              {| rid := new_id (store w); rname := name; rparents := [parent];
                 rfolder := false; rtrashed := false;
                 rmtime := length (store w); rmedia := local |} = true) as Hnew.
    { unfold file_query, in_parents. cbn. by rewrite !String.eqb_refl. }
    rewrite find_drive_file_ok
      by (done || (apply no_faults_next; cbn; by rewrite Hf)).
    cbn [store after_print after_create after_request].
    rewrite List.filter_app, Hq. cbn [List.filter app]. rewrite Hnew.
    by cbn.
  - assert (file_query parent name e = true) as He.
    { assert (In e (List.filter (file_query parent name) (store w))) as Hin
        by (rewrite Hq; by left).
      by apply List.filter_In in Hin as [_ ?]. }
    eexists _, _. split; [reflexivity |].
    rewrite find_drive_file_ok
      by (done || (apply no_faults_next; cbn; by rewrite Hf)).
    cbn [store after_print after_update after_request].
    rewrite filter_set_media, Hq. cbn [map head].
    split; [reflexivity |].
    unfold set_media at 1 2. rewrite String.eqb_refl. cbn [rname rmedia].
    split; [by eapply file_query_name |]. split; [done |].
    cbn [length]. rewrite length_map. lia.
Qed.

Lemma upload_then_lookup_witness :
  exists w' o,
    upload_or_update fs_notes "/tmp/myfs_mount/notes/report.txt" "n1" "report.txt" world0
    = (Ok tt, w')
    /\ find_drive_file "n1" "report.txt" w'
       = (Ok (Some o), after_request (ListFiles "n1" "report.txt") w')
    /\ rname o = "report.txt" /\ rmedia o = "/tmp/myfs_mount/notes/report.txt"
    /\ length (List.filter (file_query "n1" "report.txt") (store w'))
       = Nat.max 1 (length (List.filter (file_query "n1" "report.txt") (store world0))).
Proof.
  apply (upload_then_lookup fs_notes "/tmp/myfs_mount/notes/report.txt" "n1"
           "report.txt" world0).
  - reflexivity.
  - reflexivity.
  - apply not_elem_of_nil.
  - reflexivity.
Defined.

(** ** Where the processed paths come from *)

Lemma only_adds_refl allowed w : only_adds allowed w w.
Proof. intros p Hp. by left. Qed.

Lemma only_adds_trans allowed w1 w2 w3 :
  only_adds allowed w1 w2 -> only_adds allowed w2 w3 -> only_adds allowed w1 w3.
Proof.
  intros H12 H23 p Hp. destruct (H23 p Hp) as [H2 | Ha]; [by apply H12 | by right].
Qed.

Lemma only_adds_weaken (allowed allowed' : string -> Prop) w w' :
  (forall p, allowed p -> allowed' p) ->
  only_adds allowed w w' -> only_adds allowed' w w'.
Proof.
  intros Hsub H p Hp. destruct (H p Hp) as [? | ?]; [by left | right; by apply Hsub].
Qed.

Lemma preserves_for_each_in {A} P (l : list A) (body : A -> M unit) :
  (forall w, P w w) ->
  (forall w1 w2 w3, P w1 w2 -> P w2 w3 -> P w1 w3) ->
  (forall a, In a l -> preserves P (body a)) ->
  preserves P (for_each l body).
Proof.
  intros Hrefl Htrans. induction l as [| a l IH]; intros Hb; cbn [for_each].
  - by apply preserves_ret.
  - apply preserves_bind; [done | apply Hb; by left |].
    intros _. apply IH. intros b Hin. apply Hb. by right.
Qed.

Lemma only_adds_reconcile (allowed : string -> Prop) fs root fname :
  allowed (rel_of (Path.join root fname)) ->
  preserves (only_adds allowed) (reconcile fs root fname).
Proof.
  intros Ha w.
  destruct (decide (rel_of (Path.join root fname) ∈ uploaded_set w)) as [Hin | Hin].
  { rewrite reconcile_skip by done. apply only_adds_refl. }
  rewrite reconcile_fresh by done. unfold bind at 1.
  pose proof (quiet_ensure_drive_path
                (Path.dirname (rel_of (Path.join root fname))) w) as [Hs _].
  destruct (ensure_drive_path _ w) as [[parent | e] w1]; cbn [snd] in *.
  2: { intros p Hp. left. by rewrite <- Hs. }
  unfold bind at 1.
  destruct (decide (Path.join root fname ∈ vanished fs)) as [Hv | Hv].
  { rewrite upload_or_update_vanished by done. intros p Hp. left. by rewrite <- Hs. }
  destruct (upload_or_update_readable fs _ parent fname w1 Hv) as (w2 & -> & Hs2 & _).
  intros p Hp. cbn in Hp. rewrite Hs2, Hs in Hp.
  apply elem_of_union in Hp as [->%elem_of_singleton | Hp]; [by right | by left].
Qed.

Lemma only_adds_scan_and_sync fs :
  preserves
    (only_adds (fun p => exists root fname,
                  In (root, fname) (candidates fs) /\ p = rel_of (Path.join root fname)))
    (scan_and_sync fs).
Proof.
  intros w. destruct (path_exists fs (Path.join MOUNT_DIR "notes")) eqn:He.
  - rewrite scan_and_sync_candidates by done. revert w.
    apply preserves_for_each_in;
      [apply only_adds_refl | apply only_adds_trans |].
    intros [root fname] Hin. apply only_adds_reconcile. by exists root, fname.
  - rewrite scan_and_sync_no_notes_again by done. apply only_adds_refl.
Qed.

Lemma only_adds_daemon_loop cycles :
  preserves (only_adds (scanned cycles)) (daemon_loop cycles).
Proof.
  induction cycles as [| fs cycles IH]; cbn [daemon_loop].
  - apply preserves_raise, only_adds_refl.
  - apply preserves_bind; [apply only_adds_trans | |].
    + intros w. eapply only_adds_weaken; [| apply only_adds_scan_and_sync].
      intros p (root & fname & Hin & ->). exists fs, root, fname.
      split; [by left | done].
    + intros _ w. eapply only_adds_weaken; [| apply IH].
      intros p (fs' & root & fname & Hfs & Hin & ->). exists fs', root, fname.
      split; [by right | done].
Qed.

(** X10. After any run of [main], however it ended, the set of processed
    paths holds nothing but paths of files that a cycle of this run found
    below [MOUNT_DIR/notes]: what an earlier session recorded is gone, and
    nothing else is ever recorded. *)
Theorem main_records_only_scanned (cycles : list localfs) (w : world) (p : string) :
  p ∈ uploaded_set (snd (main cycles w)) -> scanned cycles p.
Proof.
  rewrite main_starts_empty. intros Hp.
  set (w0 := {| store := store w; faults := faults w; calls := calls w;
                out := out w ++ [Starting]; uploaded_set := ∅;
                odd_reply := odd_reply w |}) in *.
  assert (preserves (only_adds (scanned cycles))
            (try_except (daemon_loop cycles) KeyboardInterrupt (print Stopped))) as Hpres.
  { apply preserves_try; [apply only_adds_trans | apply only_adds_daemon_loop |].
    intros w1 q Hq. by left. }
  destruct (Hpres w0 p Hp) as [Hin | Hs]; [| done].
  by apply not_elem_of_empty in Hin.
Qed.

Lemma main_records_only_scanned_witness :
  scanned [fs_notes] "notes/report.txt".
Proof.
  apply (main_records_only_scanned [fs_notes] world0 "notes/report.txt").
  vm_compute. reflexivity.
Defined.

(** ** A remote folder with the name of a file *)





(** * The launcher *)

Module CliFacts.
Import Cli.
Local Open Scope cli_scope.
Local Open Scope Z_scope.

Section ReadPid.

Variable int_of_text : string -> option Z.

Lemma read_pid_missing path s :
  files s !! path = None -> read_pid int_of_text path s = (Done None, s).
Proof.
  intros Hf. unfold read_pid, cbind, path_exists. rewrite Hf.
  rewrite bool_decide_eq_false_2; [done |]. by intros [? ?].
Qed.

Lemma read_pid_text path s text :
  files s !! path = Some text ->
  read_pid int_of_text path s = (Done (int_of_text text), s).
Proof.
  intros Hf. unfold read_pid, cbind, path_exists. rewrite Hf.
  rewrite bool_decide_eq_true_2 by by eexists. cbn [negb].
  unfold try_exception, read_text. rewrite Hf.
  by destruct (int_of_text text).
Qed.

(** [read_pid] never raises and changes nothing. *)
Lemma read_pid_total path s :
  exists pid, read_pid int_of_text path s = (Done pid, s).
Proof.
  destruct (files s !! path) as [text |] eqn:Hf.
  - eexists. by apply read_pid_text.
  - eexists. by apply read_pid_missing.
Qed.

(** X11. What [write_pid] writes [read_pid] reads back, when [int] parses
    the text [str] gives for the pid. *)
Theorem read_pid_write_pid (path : string) (pid : Z) (s : os) :
  int_of_text (str_of_int pid) = Some pid ->
  (write_pid path pid ;; read_pid int_of_text path) s
  = (Done (Some pid), set_files (<[path := str_of_int pid]> (files s)) s).
Proof.
  intros Hparse. unfold cbind, write_pid, write_text.
  erewrite read_pid_text; [by rewrite Hparse |].
  cbn. apply lookup_insert_eq.
Qed.

End ReadPid.

(** ** Processes and signals *)

Lemma procs_valid s pid b : procs s !! pid = Some b -> valid_pid pid = true.
Proof. unfold procs. by intros [_ ?]%map_lookup_filter_Some. Qed.

Lemma valid_pid_fits pid : valid_pid pid = true -> pid_fits pid = true /\ 0 < pid.
Proof. unfold valid_pid, pid_fits, PID_MAX. lia. Qed.

Lemma procs_set_procs s p :
  (forall pid b, p !! pid = Some b -> valid_pid pid = true) ->
  procs (set_procs p s) = p.
Proof.
  intros Hp. unfold procs. cbn. apply map_filter_id.
  intros pid b Hl. cbn. by eapply Hp.
Qed.

Lemma procs_set_procs_delete s pid :
  procs (set_procs (delete pid (procs s)) s) = delete pid (procs s).
Proof.
  apply procs_set_procs. intros q b [_ Hq]%lookup_delete_Some.
  by eapply procs_valid.
Qed.


Lemma print_brand_eq l s : print_brand l s = (Done tt, cli_printed l s).
Proof. reflexivity. Qed.

(** What stays when only processes and output change. *)
Lemma same_system_refl s : same_system s s.
Proof. by repeat split. Qed.

Lemma same_system_trans s1 s2 s3 :
  same_system s1 s2 -> same_system s2 s3 -> same_system s1 s3.
Proof.
  unfold same_system. intros H12 H23.
  destruct H12 as (? & ? & ? & ? & ? & ? & ?).
  destruct H23 as (? & ? & ? & ? & ? & ? & ?).
  repeat split; congruence.
Qed.

Lemma contained_ret {A} (a : A) : contained (cret a).
Proof. intros s. split; [apply same_system_refl | done]. Qed.

Lemma contained_bind {A B} (m : C A) (k : A -> C B) :
  contained m -> (forall a, contained (k a)) -> contained (cbind m k).
Proof.
  intros Hm Hk s. unfold cbind. destruct (Hm s) as [Hs He].
  destruct (m s) as [[a | e] s1]; cbn [fst snd] in *; [| done].
  destruct (Hk a s1) as [Hs1 He1].
  split; [by eapply same_system_trans | done].
Qed.

Lemma contained_print l : contained (print_brand l).
Proof. intros s. by repeat split. Qed.

Lemma contained_os_kill pid sig : contained (os_kill pid sig).
Proof.
  intros s. unfold os_kill.
  destruct (pid_fits pid); cbn [negb]; [| by repeat split].
  destruct (pid <=? 0).
  - destruct (group_signal s pid sig (procs s)) as [[| |] p];
      [destruct sig | |]; by repeat split.
  - destruct (procs s !! pid) as [[|] |]; [| by repeat split | by repeat split].
    destruct sig; [by repeat split | | by repeat split].
    destruct (bool_decide (pid ∈ stubborn s)); by repeat split.
Qed.

Lemma contained_is_process_running pid : contained (is_process_running pid).
Proof.
  intros s. unfold is_process_running.
  destruct (contained_os_kill pid SIG0 s) as [Hs He].
  destruct (os_kill pid SIG0 s) as [[[] | e] s1]; cbn [fst snd] in *; [done |].
  destruct e; done.
Qed.

(** [try: m except Exception as e: print_brand(...)] returns, for a
    contained [m]. *)
Lemma try_exception_contained (m : C unit) (h : cexn -> cline) s :
  contained m ->
  exists s',
    try_exception m (fun e => print_brand (h e)) s = (Done tt, s')
    /\ same_system s s'.
Proof.
  intros Hm. unfold try_exception. destruct (Hm s) as [Hs He].
  destruct (m s) as [[[] | e] s1]; cbn [fst snd] in *.
  - by exists s1.
  - rewrite He. eexists. split; [reflexivity |].
    eapply same_system_trans; [exact Hs | by repeat split].
Qed.

(** Probing a number that fits [pid_t] changes nothing. *)
Lemma is_process_running_fits pid s :
  pid_fits pid = true -> exists b, is_process_running pid s = (Done b, s).
Proof.
  intros Hfit. unfold is_process_running, os_kill. rewrite Hfit. cbn [negb].
  destruct (pid <=? 0).
  - destruct (group_signal s pid SIG0 (procs s)) as [[| |] p]; by eexists.
  - destruct (procs s !! pid) as [[|] |]; by eexists.
Qed.

Section StopProcess.

Variable int_of_text : string -> option Z.

(** The guarded part of [stop_process] returns, whatever the number. *)
Lemma stop_body_done n name s :
  exists s',
    try_exception
      (os_kill n SIGTERM ;;
       running <- is_process_running n ;;
       (if running then os_kill n SIGKILL else cret tt) ;;
       print_brand (StoppedProcess name n))
      (fun e => print_brand (FailedToStop name e)) s
    = (Done tt, s')
    /\ same_system s s'.
Proof.
  apply (try_exception_contained _ (FailedToStop name)).
  apply contained_bind; [apply contained_os_kill |]. intros _.
  apply contained_bind; [apply contained_is_process_running |]. intros running.
  apply contained_bind; [| intros _; apply contained_print].
  destruct running; [apply contained_os_kill | apply contained_ret].
Qed.

(** The guarded part of [stop_process] for a positive number. *)
Lemma stop_body n name s :
  0 < n ->
  try_exception
    (os_kill n SIGTERM ;;
     running <- is_process_running n ;;
     (if running then os_kill n SIGKILL else cret tt) ;;
     print_brand (StoppedProcess name n))
    (fun e => print_brand (FailedToStop name e)) s
  = (Done tt, cli_signalled name n s).
Proof.
  intros Hn. unfold cli_signalled, try_exception, cbind at 1. unfold os_kill at 1.
  assert ((n <=? 0) = false) as Hpos by lia.
  destruct (pid_fits n) eqn:Hfit; cbn [negb].
  2: { destruct (procs s !! n) as [b |] eqn:Hp; [| done].
       apply procs_valid, valid_pid_fits in Hp as [Hp _]. congruence. }
  rewrite Hpos.
  destruct (procs s !! n) as [[|] |] eqn:Hp; [| done | done].
  destruct (bool_decide (n ∈ stubborn s)).
  - unfold cbind at 1. unfold is_process_running, os_kill at 1.
    rewrite Hfit, Hpos, Hp. cbn [negb].
    unfold cbind at 1. unfold os_kill. by rewrite Hfit, Hpos, Hp.
  - unfold cbind at 1. unfold is_process_running, os_kill at 1.
    rewrite Hfit, Hpos, procs_set_procs_delete, lookup_delete_eq. cbn [negb].
    unfold cbind at 1. unfold cret. reflexivity.
Qed.

Lemma stop_cleanup pidfile s :
  try_exception (unlink pidfile) (fun _ => cret tt) s
  = (Done tt, cli_unlinked pidfile s).
Proof.
  unfold try_exception, unlink, cli_unlinked.
  destruct (files s !! pidfile); [| done].
  by destruct (bool_decide (pidfile ∈ locked s)).
Qed.

(** [stop_process] when the pid file holds no number other than 0. *)
Lemma stop_process_none pidfile name s :
  (forall text n, files s !! pidfile = Some text ->
                  int_of_text text = Some n -> n = 0) ->
  stop_process int_of_text pidfile name s = (Done tt, cli_printed (NotRunning name) s).
Proof.
  intros Hzero. unfold stop_process, cbind at 1.
  destruct (files s !! pidfile) as [text |] eqn:Hf.
  - rewrite (read_pid_text int_of_text pidfile s text Hf).
    destruct (int_of_text text) as [n |] eqn:Hparse; [| done].
    by rewrite (Hzero text n eq_refl Hparse).
  - by rewrite (read_pid_missing int_of_text pidfile s Hf).
Qed.

(** [stop_process] when the pid file holds a positive number. *)
Lemma stop_process_eq pidfile name s text n :
  files s !! pidfile = Some text -> int_of_text text = Some n -> 0 < n ->
  stop_process int_of_text pidfile name s
  = (Done tt, cli_unlinked pidfile (cli_signalled name n s)).
Proof.
  intros Hf Hparse Hn. unfold stop_process, cbind at 1.
  rewrite (read_pid_text int_of_text pidfile s text Hf), Hparse.
  assert ((n =? 0) = false) as -> by lia.
  unfold try_finally. rewrite stop_body, stop_cleanup by done. reflexivity.
Qed.

Lemma cli_unlinked_other pidfile s path :
  path <> pidfile -> files (cli_unlinked pidfile s) !! path = files s !! path.
Proof.
  intros Hne. unfold cli_unlinked. destruct (files s !! pidfile); [| done].
  destruct (bool_decide (pidfile ∈ locked s)); [done |].
  cbn. by apply lookup_delete_ne.
Qed.

Lemma cli_unlinked_rest pidfile s :
  procs (cli_unlinked pidfile s) = procs s
  /\ printed (cli_unlinked pidfile s) = printed s
  /\ fusermount3 (cli_unlinked pidfile s) = fusermount3 s
  /\ fusermount (cli_unlinked pidfile s) = fusermount s.
Proof.
  unfold cli_unlinked. destruct (files s !! pidfile); [| done].
  by destruct (bool_decide (pidfile ∈ locked s)).
Qed.

(** [stop_process] never raises; it leaves every file but the pid file and
    the unmount tools as they are. *)
Lemma stop_process_done pidfile name s :
  exists s',
    stop_process int_of_text pidfile name s = (Done tt, s')
    /\ (forall path, path <> pidfile -> files s' !! path = files s !! path)
    /\ fusermount3 s' = fusermount3 s /\ fusermount s' = fusermount s.
Proof.
  unfold stop_process, cbind at 1.
  destruct (read_pid_total int_of_text pidfile s) as [pid ->].
  destruct pid as [n |]; [| by eexists].
  destruct (n =? 0); [by eexists |].
  unfold try_finally.
  destruct (stop_body_done n name s) as (s1 & -> & Hsame).
  rewrite stop_cleanup. cbn [snd].
  destruct Hsame as (Hfiles & _ & H3 & H2 & _).
  destruct (cli_unlinked_rest pidfile s1) as (_ & _ & H3' & H2').
  eexists. split; [reflexivity |]. split; [| split; congruence].
  intros path Hne. rewrite cli_unlinked_other by done. by rewrite Hfiles.
Qed.

(** X12. [stop_process] stops the process its pid file names when the
    launcher may signal it: the process is gone afterwards, also when it
    does not react to [SIGTERM]; success is reported, and the pid file is
    removed unless its removal is refused. *)
Theorem stop_process_stops_owned (pidfile name text : string) (pid : Z) (s : os) :
  files s !! pidfile = Some text ->
  int_of_text text = Some pid ->
  pid <> 0 ->
  procs s !! pid = Some true ->
  exists s',
    stop_process int_of_text pidfile name s = (Done tt, s')
    /\ procs s' = delete pid (procs s)
    /\ printed s' = printed s ++ [StoppedProcess name pid]
    /\ files s' = (if bool_decide (pidfile ∈ locked s) then files s
                   else delete pidfile (files s)).
Proof.
  intros Hf Hparse Hne Hp.
  destruct (valid_pid_fits pid (procs_valid s pid true Hp)) as [_ Hpos].
  eexists. split; [by eapply stop_process_eq |].
  unfold cli_signalled. rewrite Hp.
  destruct (cli_unlinked_rest pidfile
              (cli_printed (StoppedProcess name pid)
                 (set_procs (delete pid (procs s)) s))) as (-> & -> & _).
  split; [apply procs_set_procs_delete |]. split; [done |].
  unfold cli_unlinked. cbn [files cli_printed set_printed set_procs locked].
  rewrite Hf. by destruct (bool_decide (pidfile ∈ locked s)).
Qed.

(** X13. A pid file that holds a positive number which is no live process,
    or a process the launcher may not signal, makes [stop_process] report
    the failure: [ProcessLookupError] or [PermissionError], or
    [OverflowError] for a number beyond [pid_t]. No process is touched, and
    the pid file is removed all the same. *)
Theorem stop_process_stale (pidfile name text : string) (pid : Z) (s : os) :
  files s !! pidfile = Some text ->
  int_of_text text = Some pid ->
  0 < pid ->
  procs s !! pid <> Some true ->
  pidfile ∉ locked s ->
  exists s' e,
    stop_process int_of_text pidfile name s = (Done tt, s')
    /\ procs s' = procs s
    /\ printed s' = printed s ++ [FailedToStop name e]
    /\ e = match procs s !! pid with
           | Some _ => PermissionError
           | None => if pid_fits pid then ProcessLookupError else OverflowError
           end
    /\ files s' = delete pidfile (files s).
Proof.
  intros Hf Hparse Hpos Hp Hl.
  rewrite (stop_process_eq pidfile name s text pid Hf Hparse Hpos).
  unfold cli_signalled.
  destruct (procs s !! pid) as [[|] |] eqn:Hq; [done | |].
  - eexists _, _. split; [reflexivity |].
    destruct (cli_unlinked_rest pidfile
                (cli_printed (FailedToStop name PermissionError) s)) as (-> & -> & _).
    split; [done |]. split; [done |]. split; [done |].
    unfold cli_unlinked. cbn [files cli_printed set_printed locked].
    by rewrite Hf, bool_decide_eq_false_2.
  - eexists _, _. split; [reflexivity |].
    match goal with
    | |- context [cli_unlinked _ ?s0] =>
        destruct (cli_unlinked_rest pidfile s0) as (-> & -> & _)
    end.
    split; [done |]. split; [done |]. split; [done |].
    unfold cli_unlinked. cbn [files cli_printed set_printed locked].
    by rewrite Hf, bool_decide_eq_false_2.
Qed.

(** X14. [stop_process] never raises and changes no file but the pid file.
    When the pid file holds a positive number, it changes no process but
    the one of that pid; when it holds no number other than 0, nothing
    changes at all but the output. (A negative number sends the signals to
    a process group or to every process.) *)
Theorem stop_process_frame (pidfile name : string) (s : os) :
  exists s',
    stop_process int_of_text pidfile name s = (Done tt, s')
    /\ (forall path, path <> pidfile -> files s' !! path = files s !! path)
    /\ (forall text n q,
          files s !! pidfile = Some text -> int_of_text text = Some n ->
          0 < n -> q <> n -> procs s' !! q = procs s !! q)
    /\ ((forall text n, files s !! pidfile = Some text ->
                        int_of_text text = Some n -> n = 0) ->
        files s' = files s /\ procs s' = procs s).
Proof.
  destruct (stop_process_done pidfile name s) as (s' & Hrun & Hfiles & _).
  exists s'. split; [exact Hrun |]. split; [exact Hfiles |]. split.
  - intros text n q Hf Hparse Hpos Hq.
    rewrite (stop_process_eq pidfile name s text n Hf Hparse Hpos) in Hrun.
    inversion Hrun as [Hs']. clear Hrun.
    rewrite (proj1 (cli_unlinked_rest pidfile _)).
    unfold cli_signalled. destruct (procs s !! n) as [[|] |]; [| done | done].
    change (procs (set_procs (delete n (procs s)) s) !! q = procs s !! q).
    rewrite procs_set_procs_delete. by apply lookup_delete_ne.
  - intros Hzero. rewrite (stop_process_none pidfile name s Hzero) in Hrun.
    by inversion Hrun.
Qed.

End StopProcess.

Lemma read_pid_write_pid_witness :
  (write_pid PID_MYFS 41 ;; read_pid decimal_int PID_MYFS) os_idle
  = (Done (Some 41), set_files (<[PID_MYFS := str_of_int 41]> (files os_idle)) os_idle).
Proof.
  apply (read_pid_write_pid decimal_int PID_MYFS 41 os_idle). reflexivity.
Defined.

Lemma stop_process_stops_owned_witness :
  exists s',
    stop_process decimal_int PID_MYFS "myfs" os_running = (Done tt, s')
    /\ procs s' = delete 41 (procs os_running)
    /\ printed s' = printed os_running ++ [StoppedProcess "myfs" 41]
    /\ files s' = (if bool_decide (PID_MYFS ∈ locked os_running) then files os_running
                   else delete PID_MYFS (files os_running)).
Proof.
  apply (stop_process_stops_owned decimal_int PID_MYFS "myfs" "41" 41 os_running).
  - vm_compute. reflexivity.
  - reflexivity.
  - lia.
  - vm_compute. reflexivity.
Defined.

Lemma stop_process_stale_witness :
  exists s' e,
    stop_process decimal_int PID_SYNC "drive_sync" os_stale = (Done tt, s')
    /\ procs s' = procs os_stale
    /\ printed s' = printed os_stale ++ [FailedToStop "drive_sync" e]
    /\ e = ProcessLookupError
    /\ files s' = delete PID_SYNC (files os_stale).
Proof.
  apply (stop_process_stale decimal_int PID_SYNC "drive_sync" "42" 42 os_stale).
  - vm_compute. reflexivity.
  - reflexivity.
  - lia.
  - vm_compute. discriminate.
  - apply not_elem_of_empty.
Defined.

(** A pid file that holds a number beyond [pid_t]. *)
Example stop_process_huge :
  printed (snd (stop_process decimal_int PID_SYNC "drive_sync" os_huge))
  = [FailedToStop "drive_sync" OverflowError]
  /\ mount decimal_int None os_huge = (Fail OverflowError, os_huge)
  /\ status decimal_int os_huge = (Fail OverflowError, os_huge).
Proof. repeat split; vm_compute; reflexivity. Qed.

Lemma foldr_max_bound (l : list Z) :
  0 <= foldr Z.max 0 l /\ forall k, k ∈ l -> k <= foldr Z.max 0 l.
Proof.
  induction l as [| a l [IH0 IH]]; cbn [foldr].
  - split; [lia |]. intros k Hk. by apply not_elem_of_nil in Hk.
  - split; [lia |]. intros k [-> | Hk]%elem_of_cons; [lia |].
    specialize (IH k Hk). lia.
Qed.


Lemma fresh_pid_above p k : is_Some (p !! k) -> k < fresh_pid p.
Proof.
  intros Hk.
  assert (k ∈ elements (dom p)) as Hin by by apply elem_of_elements, elem_of_dom.
  pose proof (foldr_max_bound (elements (dom p))) as [_ H].
  specialize (H _ Hin). unfold fresh_pid. lia.
Qed.

Lemma fresh_pid_free p : p !! fresh_pid p = None.
Proof.
  destruct (p !! fresh_pid p) as [b |] eqn:Hp; [| done].
  pose proof (fresh_pid_above p (fresh_pid p)) as H.
  rewrite Hp in H. specialize (H (ltac:(by eexists))). lia.
Qed.


(** ** Paths as [pathlib] spells them *)

Example path_str_ex :
  path_str "/tmp/f/" = "/tmp/f" /\ path_str "/tmp//f/./sub" = "/tmp/f/sub"
  /\ path_str "./mnt" = "mnt" /\ path_str "//srv/x" = "//srv/x"
  /\ path_str "///srv/x" = "/srv/x" /\ path_str "./" = "."
  /\ path_str "a/../b" = "a/../b".
Proof. repeat split; reflexivity. Qed.

Example path_ancestors_ex :
  path_ancestors "/tmp/f/sub" = ["/tmp"; "/tmp/f"]
  /\ path_ancestors "/tmp" = [] /\ path_ancestors "a/b" = ["a"].
Proof. repeat split; reflexivity. Qed.

(** A mount point that is, or lies below, a regular file. *)
Example mount_over_file :
  mount decimal_int (Some "/tmp/f/") os_file = (Fail FileExistsError, os_file)
  /\ mount decimal_int (Some "/tmp/f/sub") os_file = (Fail NotADirectoryError, os_file).
Proof. split; vm_compute; reflexivity. Qed.

Section Mount.

Variable int_of_text : string -> option Z.














End Mount.

Section Unmount.

Variable int_of_text : string -> option Z.

Lemma stop_process_tools pidfile name s :
  fusermount3 (snd (stop_process int_of_text pidfile name s)) = fusermount3 s
  /\ fusermount (snd (stop_process int_of_text pidfile name s)) = fusermount s.
Proof.
  destruct (stop_process_done int_of_text pidfile name s) as (s' & -> & _ & H3 & H2).
  by split.
Qed.

Lemma stop_process_other_file pidfile name s path :
  path <> pidfile ->
  files (snd (stop_process int_of_text pidfile name s)) !! path = files s !! path.
Proof.
  intros Hne.
  destruct (stop_process_done int_of_text pidfile name s) as (s' & -> & Hfiles & _).
  by apply Hfiles.
Qed.

Lemma stop_process_returns pidfile name s :
  stop_process int_of_text pidfile name s
  = (Done tt, snd (stop_process int_of_text pidfile name s)).
Proof.
  by destruct (stop_process_done int_of_text pidfile name s) as (s' & -> & _).
Qed.

(** X17. When [fusermount3] is not installed, [unmount] ends with the
    [FileNotFoundError] of running it, after the sync daemon was dealt
    with: the fallback [fusermount] is not tried, the file system process
    is not stopped and its pid file stays as it was. *)
Theorem unmount_without_fusermount3 (path : option string) (s : os) :
  fusermount3 s = NotInstalled ->
  unmount int_of_text path s
  = (Fail FileNotFoundError, snd (stop_process int_of_text PID_SYNC "drive_sync" s))
  /\ files (snd (unmount int_of_text path s)) !! PID_MYFS = files s !! PID_MYFS.
Proof.
  intros Htool.
  assert (unmount int_of_text path s
          = (Fail FileNotFoundError,
             snd (stop_process int_of_text PID_SYNC "drive_sync" s))) as Hrun.
  { unfold unmount. unfold cbind at 1.
    pose proof (stop_process_tools PID_SYNC "drive_sync" s) as [H3 _].
    rewrite stop_process_returns.
    unfold cbind at 1. unfold cbind at 1. unfold run_tool.
    by rewrite H3, Htool. }
  split; [exact Hrun |]. rewrite Hrun. cbn [snd].
  by apply stop_process_other_file.
Qed.

(** X18. When [fusermount3] can be run, [unmount] always goes on to stop the
    file system process, whatever the unmount tools report: it never
    raises, and between stopping the sync daemon and stopping the file
    system process nothing changes but the output. *)
Theorem unmount_stops_myfs (path : option string) (s : os) :
  fusermount3 s <> NotInstalled ->
  exists s2,
    unmount int_of_text path s = stop_process int_of_text PID_MYFS "myfs" s2
    /\ fst (unmount int_of_text path s) = Done tt
    /\ files s2 = files (snd (stop_process int_of_text PID_SYNC "drive_sync" s))
    /\ procs s2 = procs (snd (stop_process int_of_text PID_SYNC "drive_sync" s)).
Proof.
  intros Htool.
  set (s1 := snd (stop_process int_of_text PID_SYNC "drive_sync" s)).
  assert (exists l,
            unmount int_of_text path s
            = stop_process int_of_text PID_MYFS "myfs" (cli_printed l s1)) as [l Hrun].
  { unfold unmount. unfold cbind at 1.
    pose proof (stop_process_tools PID_SYNC "drive_sync" s) as [H3 H2].
    fold s1 in H3, H2.
    rewrite stop_process_returns. fold s1.
    unfold cbind at 1. unfold cbind at 1. unfold run_tool at 1. rewrite H3.
    destruct (fusermount3 s); [by eexists | | done].
    unfold try_exception, cbind at 1. unfold run_tool. rewrite H2.
    destruct (fusermount s); cbn [is_exception]; by eexists. }
  exists (cli_printed l s1). split; [exact Hrun |].
  split; [by rewrite Hrun, stop_process_returns | done].
Qed.

End Unmount.

Lemma logout_one_eq path name removed s :
  logout_one path name removed s
  = (Done (if bool_decide (removable s path) then true else removed),
     logout_step path name s).
Proof.
  unfold logout_one, logout_step, removable, cbind at 1. unfold path_exists.
  destruct (files s !! path) as [text |] eqn:Hf.
  - rewrite bool_decide_eq_true_2 by by eexists.
    unfold try_exception, cbind at 1. unfold unlink. rewrite Hf.
    destruct (decide (path ∈ locked s)) as [Hl | Hl].
    + rewrite (bool_decide_eq_true_2 (path ∈ locked s)) by done.
      cbn. rewrite bool_decide_eq_false_2; [done |]. by intros [_ ?].
    + rewrite (bool_decide_eq_false_2 (path ∈ locked s)) by done.
      rewrite bool_decide_eq_true_2; [done |]. split; [by eexists | done].
  - rewrite bool_decide_eq_false_2 by by intros [? ?].
    rewrite bool_decide_eq_false_2; [done |]. by intros [[? ?] _].
Qed.

Lemma logout_step_files path name s q :
  files (logout_step path name s) !! q
  = if bool_decide (q = path /\ path ∉ locked s) then None else files s !! q.
Proof.
  unfold logout_step. destruct (files s !! path) as [text |] eqn:Hf.
  - destruct (decide (path ∈ locked s)) as [Hl | Hl].
    + rewrite (bool_decide_eq_true_2 (path ∈ locked s)) by done.
      rewrite bool_decide_eq_false_2; [done |]. by intros [_ ?].
    + rewrite (bool_decide_eq_false_2 (path ∈ locked s)) by done. cbn.
      destruct (decide (q = path)) as [-> | Hq].
      * rewrite bool_decide_eq_true_2 by done. apply lookup_delete_eq.
      * rewrite bool_decide_eq_false_2 by by intros [? _].
        by apply lookup_delete_ne.
  - case_bool_decide as Hq; [| done]. destruct Hq as [-> _]. done.
Qed.

Lemma logout_step_locked path name s : locked (logout_step path name s) = locked s.
Proof.
  unfold logout_step. destruct (files s !! path); [| done].
  by destruct (bool_decide (path ∈ locked s)).
Qed.

(** X19. [logout] never raises; afterwards neither token file is there
    unless its removal was refused, and no other file has changed. It ends
    with the message that no token files were found exactly when it removed
    none, also when one was there and could not be removed. *)
Theorem logout_removes_tokens (s : os) :
  exists s',
    logout s = (Done tt, s')
    /\ (forall q,
          files s' !! q
          = if bool_decide ((q = TOKEN \/ q = TOKEN2) /\ q ∉ locked s)
            then None else files s !! q)
    /\ (last (printed s') = Some NoTokenFiles
        <-> ~ removable s TOKEN /\ ~ removable s TOKEN2).
Proof.
  unfold logout. unfold cbind at 1. rewrite logout_one_eq.
  unfold cbind at 1. rewrite logout_one_eq.
  set (s1 := logout_step TOKEN "token.json" s).
  set (s2 := logout_step TOKEN2 "credentials.json" s1).
  assert (forall q,
            files s2 !! q
            = if bool_decide ((q = TOKEN \/ q = TOKEN2) /\ q ∉ locked s)
              then None else files s !! q) as Hfiles.
  { intros q. unfold s2, s1.
    rewrite (logout_step_files TOKEN2 "credentials.json").
    rewrite (logout_step_locked TOKEN "token.json" s).
    rewrite (logout_step_files TOKEN "token.json" s q).
    repeat case_bool_decide; try done; exfalso; intuition (subst; auto). }
  assert (removable s1 TOKEN2 <-> removable s TOKEN2) as Hrem.
  { unfold removable, s1.
    rewrite (logout_step_locked TOKEN "token.json" s).
    rewrite (logout_step_files TOKEN "token.json" s TOKEN2).
    rewrite bool_decide_eq_false_2; [done |]. by intros [? _]. }
  assert (forall s0 path name,
            ~ removable s0 path \/
            last (printed (logout_step path name s0)) = Some (Removed name)) as Hlast.
  { intros s0 path name. unfold logout_step, removable.
    destruct (files s0 !! path) eqn:Hf; [| left; by intros [[? ?] _]].
    destruct (decide (path ∈ locked s0)) as [Hl | Hl]; [left; by intros [_ ?] |].
    right. rewrite bool_decide_eq_false_2 by done. cbn. by rewrite last_snoc. }
  assert (forall s0 path name,
            ~ removable s0 path ->
            last (printed (logout_step path name s0)) <> Some NoTokenFiles
            \/ printed (logout_step path name s0) = printed s0) as Hkeep.
  { intros s0 path name Hn. unfold logout_step, removable in *.
    destruct (files s0 !! path) eqn:Hf; [| by right].
    destruct (decide (path ∈ locked s0)) as [Hl | Hl].
    - left. rewrite bool_decide_eq_true_2 by done. cbn. by rewrite last_snoc.
    - exfalso. apply Hn. split; [by eexists | done]. }
  destruct (decide (removable s TOKEN)) as [H1 | H1];
    destruct (decide (removable s1 TOKEN2)) as [H2 | H2].
  - rewrite (bool_decide_eq_true_2 _ H1), (bool_decide_eq_true_2 _ H2). cbn [negb].
    eexists. split; [reflexivity |]. split; [exact Hfiles |].
    destruct (Hlast s1 TOKEN2 "credentials.json") as [? | Hl]; [done |].
    fold s2 in Hl. rewrite Hl. split; [done | tauto].
  - rewrite (bool_decide_eq_true_2 _ H1), (bool_decide_eq_false_2 _ H2). cbn [negb].
    eexists. split; [reflexivity |]. split; [exact Hfiles |].
    split; [| tauto]. intros Hl. exfalso.
    destruct (Hkeep s1 TOKEN2 "credentials.json" H2) as [Hne | Heq]; [done |].
    fold s2 in Heq. rewrite Heq in Hl.
    destruct (Hlast s TOKEN "token.json") as [? | Hl1]; [done |].
    fold s1 in Hl1. by rewrite Hl1 in Hl.
  - rewrite (bool_decide_eq_false_2 _ H1), (bool_decide_eq_true_2 _ H2). cbn [negb].
    eexists. split; [reflexivity |]. split; [exact Hfiles |].
    destruct (Hlast s1 TOKEN2 "credentials.json") as [? | Hl]; [done |].
    fold s2 in Hl. rewrite Hl. split; [done |]. intros [_ Hn]. by apply Hrem in H2.
  - rewrite (bool_decide_eq_false_2 _ H1), (bool_decide_eq_false_2 _ H2). cbn [negb].
    eexists. split; [reflexivity |]. split; [exact Hfiles |].
    split; [| intros _; cbn; by rewrite last_snoc].
    intros _. split; [done |]. by rewrite <- Hrem.
Qed.





Lemma unmount_without_fusermount3_witness :
  unmount decimal_int None os_no_fusermount3
  = (Fail FileNotFoundError,
     snd (stop_process decimal_int PID_SYNC "drive_sync" os_no_fusermount3)).
Proof.
  exact (proj1 (unmount_without_fusermount3 decimal_int None os_no_fusermount3 eq_refl)).
Defined.

Lemma unmount_stops_myfs_witness :
  exists s2,
    unmount decimal_int None os_running = stop_process decimal_int PID_MYFS "myfs" s2
    /\ fst (unmount decimal_int None os_running) = Done tt.
Proof.
  destruct (unmount_stops_myfs decimal_int None os_running) as (s2 & Hrun & Hfst & _).
  - discriminate.
  - exists s2. split; [exact Hrun | exact Hfst].
Defined.

Example unmount_running :
  let s' := snd (unmount decimal_int None os_running) in
  procs s' = ∅
  /\ printed s' = [StoppedProcess "drive_sync" 42; Unmounted "/tmp/myfs_mount";
                   StoppedProcess "myfs" 41]
  /\ files s' !! PID_MYFS = None /\ files s' !! PID_SYNC = None.
Proof. cbv zeta. repeat split; vm_compute; reflexivity. Qed.

Example splitlines_log3 :
  splitlines log3 = ["[UPLOAD] a"; "[UPDATE] b"; "[ERROR] c"].
Proof. reflexivity. Qed.

Example splitlines_crlf :
  splitlines (String (ascii_of_nat 13) (String (ascii_of_nat 10) "x")) = [""; "x"].
Proof. reflexivity. Qed.

Lemma splitlines_break_free text :
  Forall (fun l => has_break l = false) (splitlines text).
Proof.
  enough (Forall (fun l => has_break l = false) (splitlines text)
          /\ forall c rest, text = String c rest ->
              Forall (fun l => has_break l = false) (splitlines rest)) as [H _]
    by exact H.
  induction text as [| c text [IH IHtail]].
  - split; [constructor | done].
  - split; [| by intros c' rest [= <- <-]].
    cbn [splitlines]. destruct (is_break c) eqn:Hc.
    + constructor; [done |]. destruct (is_cr c); [| exact IH].
      destruct text as [| c' rest]; [constructor |].
      destruct (is_lf c'); [by eapply IHtail | exact IH].
    + destruct (splitlines text) as [| l ls]; constructor.
      * cbn. by rewrite Hc.
      * constructor.
      * cbn. rewrite Hc. by inversion IH.
      * by inversion IH.
Qed.

Lemma has_break_app a b : has_break (a +:+ b) = has_break a || has_break b.
Proof.
  induction a as [| c a IH]; [done |].
  rewrite PathFacts.append_cons. cbn. by rewrite IH, orb_assoc.
Qed.

Lemma concat_break_free lines :
  Forall (fun l => has_break l = false) lines ->
  has_break (String.concat "" lines) = false.
Proof.
  induction 1 as [| l lines Hl Hlines IH]; [done |].
  cbn [String.concat]. destruct lines as [| l' lines']; [done |].
  change (has_break (l +:+ ("" +:+ String.concat "" (l' :: lines'))) = false).
  rewrite has_break_app, Hl. exact IH.
Qed.

Lemma splitlines_one_line text :
  has_break text = false ->
  splitlines text = if Path.is_empty text then [] else [text].
Proof.
  induction text as [| c text IH]; [done |].
  cbn. intros [Hc Ht]%orb_false_iff. rewrite Hc, IH by done.
  by destruct text.
Qed.

Lemma log_tail_break_free text : has_break (log_tail text) = false.
Proof.
  apply concat_break_free. unfold last8.
  apply Forall_drop, splitlines_break_free.
Qed.

Section StatusFacts.

Variable int_of_text : string -> option Z.

Lemma pid_running_fits pid s :
  (forall n, pid = Some n -> pid_fits n = true) ->
  exists b, pid_running pid s = (Done b, s).
Proof.
  intros Hfit. destruct pid as [n |]; cbn; [| by eexists].
  destruct (Z.eqb n 0); [by eexists |].
  by apply is_process_running_fits, Hfit.
Qed.

Lemma read_pid_probed path s :
  pid_probed int_of_text path s ->
  exists pid,
    read_pid int_of_text path s = (Done pid, s)
    /\ forall n, pid = Some n -> pid_fits n = true.
Proof.
  intros Hprobe. destruct (files s !! path) as [text |] eqn:Hf.
  - exists (int_of_text text). split; [by apply read_pid_text |].
    intros n Hn. by eapply Hprobe.
  - exists None. split; [by apply read_pid_missing | done].
Qed.

Lemma print_lines_eq lines s :
  print_lines lines s
  = (Done tt, set_printed (printed s ++ map LogLine lines) s).
Proof.
  revert s. induction lines as [| l lines IH]; intros s.
  - cbn. unfold cret, set_printed. destruct s; cbn. by rewrite app_nil_r.
  - cbn [print_lines map]. unfold cbind. rewrite print_brand_eq, IH.
    unfold cli_printed, set_printed. cbn. by rewrite <- app_assoc.
Qed.

(** X20. The log in [status]: the last eight lines of the log are joined
    without a separator before they are split again. So when the log reads
    as text and the numbers in the pid files fit [pid_t], [status] returns,
    changes nothing but the output, and prints the recent log as at most
    one line, made of those lines run together. *)
Theorem status_log_run_together (s : os) (text : string) :
  files s !! SYNC_LOG = Some text ->
  log_error s = None ->
  pid_probed int_of_text PID_MYFS s ->
  pid_probed int_of_text PID_SYNC s ->
  exists s' myfs sync,
    status int_of_text s = (Done tt, s')
    /\ files s' = files s /\ procs s' = procs s
    /\ printed s'
       = printed s ++ [StatusReport; StatusMyfs myfs; StatusSync sync; RecentLog]
         ++ (if Path.is_empty (log_tail text) then [] else [LogLine (log_tail text)]).
Proof.
  intros Hf Hlog Hm Hs. unfold status.
  destruct (read_pid_probed PID_MYFS s Hm) as (p1 & H1 & Hfit1).
  destruct (read_pid_probed PID_SYNC s Hs) as (p2 & H2 & Hfit2).
  destruct (pid_running_fits p1 s Hfit1) as [b1 Hb1].
  destruct (pid_running_fits p2 s Hfit2) as [b2 Hb2].
  unfold cbind at 1. rewrite H1. unfold cbind at 1. rewrite H2.
  unfold cbind at 1. rewrite Hb1. unfold cbind at 1. rewrite Hb2.
  unfold cbind at 1. rewrite print_brand_eq.
  unfold cbind at 1. rewrite print_brand_eq.
  unfold cbind at 1. rewrite print_brand_eq.
  set (s3 := cli_printed (StatusSync (if b2 then p2 else None))
               (cli_printed (StatusMyfs (if b1 then p1 else None))
                  (cli_printed StatusReport s))).
  assert (files s3 !! SYNC_LOG = Some text) as Hf3 by exact Hf.
  assert (log_error s3 = None) as Hlog3 by exact Hlog.
  unfold cbind at 1. unfold path_exists.
  rewrite bool_decide_eq_true_2 by (rewrite Hf3; by eexists).
  unfold cbind at 1. unfold read_log, read_text. rewrite Hlog3, Hf3.
  unfold cbind at 1. rewrite print_brand_eq, print_lines_eq.
  rewrite (splitlines_one_line (log_tail text)) by apply log_tail_break_free.
  subst s3.
  eexists _, _, _. split; [reflexivity |].
  split; [reflexivity |]. split; [reflexivity |].
  cbn [printed cli_printed set_printed]. rewrite <- !app_assoc. cbn [app].
  by destruct (Path.is_empty (log_tail text)).
Qed.

End StatusFacts.

Lemma status_log_run_together_witness :
  exists s' myfs sync,
    status decimal_int os_logged = (Done tt, s')
    /\ files s' = files os_logged /\ procs s' = procs os_logged
    /\ printed s'
       = printed os_logged ++ [StatusReport; StatusMyfs myfs; StatusSync sync; RecentLog]
         ++ (if Path.is_empty (log_tail log3) then [] else [LogLine (log_tail log3)]).
Proof.
  apply (status_log_run_together decimal_int os_logged log3).
  - vm_compute. reflexivity.
  - reflexivity.
  - intros text n Hf Hn. vm_compute in Hf. injection Hf as <-.
    vm_compute in Hn. injection Hn as <-. reflexivity.
  - intros text n Hf. vm_compute in Hf. discriminate.
Defined.

Example status_logged :
  printed (snd (status decimal_int os_logged))
  = [StatusReport; StatusMyfs None; StatusSync None; RecentLog;
     LogLine "[UPLOAD] a[UPDATE] b[ERROR] c"].
Proof. vm_compute. reflexivity. Qed.

(** A log that does not read as text ends [status] after the report. *)
Example status_log_unreadable :
  status decimal_int os_garbled
  = (Fail UnicodeDecodeError,
     cli_printed (StatusSync None)
       (cli_printed (StatusMyfs None) (cli_printed StatusReport os_garbled))).
Proof. vm_compute. reflexivity. Qed.

End CliFacts.
